(** * grpctmclient: call dispatch, deadline translation and stream forwarding

    A shallow embedding of [go/vt/tabletmanager/grpctmclient/client.go]:
    the [dial] and [rpcCallTablet] helpers, the two streaming calls
    [HealthStream] and [Backup], and the [IsTimeoutError] predicate.

    Go values are modelled as follows.
    - [time.Time] is an instant in nanoseconds ([Z]); [time.Duration] is an
      int64 number of nanoseconds and [Time.Sub] saturates, as in package
      [time].
    - the [error] interface is [option error] ([None] is [nil]); the dynamic
      type of a non-nil error is the constructor of [error].
    - calls into grpc, bsonrpc and rpcplus are effects on a [World] that logs
      every dial attempt and every [Close]; what those libraries answer is
      read from an [Env].
    - goroutines and channels are small-step machines driven by a schedule. *)

From Stdlib Require Import ZArith List String Ascii Bool Lia Arith.
Import ListNotations.

Local Open Scope string_scope.

(** ** Strings: what [fmt.Errorf] builds and how messages are inspected *)

Module Str.

(** [hasPrefix p s]: [s] starts with [p]. *)
Fixpoint hasPrefix (p s : string) : bool :=
  match p, s with
  | EmptyString, _ => true
  | String _ _, EmptyString => false
  | String a p', String b s' => Ascii.eqb a b && hasPrefix p' s'
  end.

(** [contains needle hay]: [needle] occurs in [hay] as a contiguous run. *)
Fixpoint contains (needle hay : string) : bool :=
  hasPrefix needle hay ||
  match hay with
  | EmptyString => false
  | String _ rest => contains needle rest
  end.

End Str.

(** ** Package [time] *)

Module Time.

Local Open Scope Z_scope.

Definition Time := Z.
Definition Duration := Z.

Definition minDuration : Duration := - 2 ^ 63.
Definition maxDuration : Duration := 2 ^ 63 - 1.

(** [t.Sub(u)]: the duration [t - u], clamped to the int64 range. *)
Definition Sub (t u : Time) : Duration :=
  let d := t - u in
  if d <? minDuration then minDuration
  else if maxDuration <? d then maxDuration
  else d.

End Time.

(** ** Errors *)

(** Error values built outside this package (grpc, bsonrpc, rpcplus, io).
    Their dynamic type is never [timeoutError], which is unexported. *)
Inductive foreign : Type :=
| io_EOF
| opaque (msg : string).

(** Dynamic type and contents of a non-nil [error]. *)
Inductive error : Type :=
| Foreign (f : foreign)
| errorString (msg : string)        (* what [fmt.Errorf] returns *)
| timeoutError (inner : error).     (* [timeoutError{inner}] *)

Definition foreign_Error (f : foreign) : string :=
  match f with
  | io_EOF => "EOF"
  | opaque msg => msg
  end.

(** [err.Error()]; [timeoutError] promotes the method of its embedded error. *)
Fixpoint Error (e : error) : string :=
  match e with
  | Foreign f => foreign_Error f
  | errorString msg => msg
  | timeoutError inner => Error inner
  end.

Definition is_EOF (f : foreign) : bool :=
  match f with
  | io_EOF => true
  | opaque _ => false
  end.

(** ** Tablets and contexts *)

(** [topo.TabletInfo], reduced to what the client reads: [Alias] is the
    rendering of [tablet.Alias] under [%v], [Addr] the result of
    [tablet.Addr()]. *)
Record TabletInfo : Type := mkTablet {
  Alias : string;
  Addr : string
}.

(** [ctx.Err()] once [ctx.Done()] is closed. *)
Inductive ctxErr : Type :=
| Canceled
| DeadlineExceeded.

Definition ctxErr_eqb (a b : ctxErr) : bool :=
  match a, b with
  | Canceled, Canceled | DeadlineExceeded, DeadlineExceeded => true
  | _, _ => false
  end.

(** The static part of a [context.Context]: [ctx.Deadline()]. *)
Record Context : Type := mkContext {
  Deadline : option Time.Time
}.

(** Serialized request and response payloads. *)
Definition Payload := string.

(** ** The world outside the client *)

(** One invocation of a dialer, with the options it was given. *)
Inductive DialReq : Type :=
| grpc_Dial (target : string) (withBlock : bool) (withTimeout : option Time.Duration)
| bsonrpc_DialHTTP (network address : string) (connectTimeout : Time.Duration).

Record World : Type := mkWorld {
  dialLog : list DialReq;     (* dial attempts, oldest first *)
  issued : list string;       (* remote methods started on the connection *)
  connCloses : nat;           (* calls of [Close] on the connection *)
  reply : option Payload      (* the response destination *)
}.

Definition emptyWorld : World := mkWorld [] [] 0 None.

(** What the select in [rpcCallTablet] resolves to. *)
Inductive Wait : Type :=
| ctxDone (err : ctxErr)                 (* [<-ctx.Done()], with [ctx.Err()] *)
| callDone (callError : option foreign) (result : Payload).   (* [<-call.Done] *)

(** Answers of the environment during one call. *)
Record Env : Type := mkEnv {
  now : Time.Time;                          (* [time.Now()] *)
  dialAnswer : DialReq -> option foreign;   (* [None]: connected *)
  waitAnswer : Wait;                        (* the select of [rpcCallTablet] *)
  unaryAnswer : foreign + Payload;          (* a unary grpc method *)
  streamAnswer : option foreign             (* opening a grpc stream *)
}.

(** ** A state monad over [World] *)

Definition M (A : Type) : Type := World -> A * World.

Definition ret {A} (a : A) : M A := fun w => (a, w).

Definition bind {A B} (m : M A) (k : A -> M B) : M B :=
  fun w => let (a, w') := m w in k a w'.

Declare Scope world_scope.
Delimit Scope world_scope with world.
Notation "x <- m ;; k" := (bind m (fun x => k))
  (at level 61, m at next level, right associativity) : world_scope.
Notation "m ;; k" := (bind m (fun _ => k))
  (at level 61, right associativity) : world_scope.
Local Open Scope world_scope.

(** [grpc.Dial] and [bsonrpc.DialHTTP]: log the attempt, answer from [env]. *)
Definition Dial (env : Env) (req : DialReq) : M (option foreign) :=
  fun w => (dialAnswer env req,
            mkWorld (dialLog w ++ [req]) (issued w) (connCloses w) (reply w)).

(** [cc.Close()] and [rpcClient.Close()]. *)
Definition Close : M unit :=
  fun w => (tt, mkWorld (dialLog w) (issued w) (S (connCloses w)) (reply w)).

(** Start a remote method on the connection: [rpcClient.Go], [rpcClient.StreamGo]
    and the stream-opening [c.StreamHealth]. *)
Definition Go (method : string) : M unit :=
  fun w => (tt, mkWorld (dialLog w) (issued w ++ [method]) (connCloses w) (reply w)).

(** The two-way select on [ctx.Done()] and [call.Done].  rpcplus fills the
    reply before it signals a call that completed without error.  A call
    that completed while the context was done as well, and whose select took
    [<-ctx.Done()], has no answer in [Wait]: what the reply destination holds
    on an error return is outside this model. *)
Definition select (env : Env) : M Wait :=
  fun w => (waitAnswer env,
            match waitAnswer env with
            | callDone None result =>
                mkWorld (dialLog w) (issued w) (connCloses w) (Some result)
            | _ => w
            end).

(** A unary grpc method such as [c.Ping(ctx, req)]. *)
Definition unary (env : Env) (method : string) : M (foreign + Payload) :=
  fun w => (unaryAnswer env,
            mkWorld (dialLog w) (issued w ++ [method]) (connCloses w) (reply w)).

(** ** [dial], [rpcCallTablet] and a unary wrapper *)

Definition isSome {A} (o : option A) : bool :=
  match o with Some _ => true | None => false end.

(** [var connectTimeout time.Duration; if ok { connectTimeout = deadline.Sub(time.Now()) }] *)
Definition connectTimeoutOf (env : Env) (ctx : Context) : Time.Duration :=
  match Deadline ctx with
  | Some deadline => Time.Sub deadline (now env)
  | None => 0%Z
  end.

Definition dial (env : Env) (ctx : Context) (tablet : TabletInfo) : M (option error) :=
  let connectTimeout := connectTimeoutOf env ctx in
  if isSome (Deadline ctx) && (connectTimeout <? 0)%Z then
    ret (Some (timeoutError (errorString
      ("timeout connecting to TabletManager on " ++ Alias tablet))))
  else
    err <- (if (connectTimeout =? 0)%Z
            then Dial env (grpc_Dial (Addr tablet) true None)
            else Dial env (grpc_Dial (Addr tablet) true (Some connectTimeout))) ;;
    match err with
    | Some e => ret (Some (Foreign e))
    | None => ret None
    end.

Definition rpcCallTablet (env : Env) (ctx : Context) (tablet : TabletInfo)
    (name : string) : M (option error) :=
  let connectTimeout := connectTimeoutOf env ctx in
  if isSome (Deadline ctx) && (connectTimeout <? 0)%Z then
    ret (Some (timeoutError (errorString
      ("timeout connecting to TabletManager." ++ name ++ " on " ++ Alias tablet))))
  else
    err <- Dial env (bsonrpc_DialHTTP "tcp" (Addr tablet) connectTimeout) ;;
    match err with
    | Some e =>
        ret (Some (errorString
          ("RPC error for " ++ Alias tablet ++ ": " ++ foreign_Error e)))
    | None =>
        Go ("TabletManager." ++ name) ;;
        w <- select env ;;
        let result :=
          match w with
          | ctxDone cause =>
              if ctxErr_eqb cause DeadlineExceeded then
                Some (timeoutError (errorString
                  ("timeout waiting for TabletManager." ++ name ++ " to " ++ Alias tablet)))
              else
                Some (errorString
                  ("interrupted waiting for TabletManager." ++ name ++ " to " ++ Alias tablet))
          | callDone (Some callError) _ =>
              Some (errorString
                ("remote error for " ++ Alias tablet ++ ": " ++ foreign_Error callError))
          | callDone None _ => None
          end in
        Close ;;          (* deferred [rpcClient.Close()] *)
        ret result
    end.

Definition Ping (env : Env) (ctx : Context) (tablet : TabletInfo) : M (option error) :=
  err <- dial env ctx tablet ;;
  match err with
  | Some e => ret (Some e)
  | None =>
      r <- unary env "Ping" ;;
      let result :=
        match r with
        | inl e => Some (Foreign e)
        | inr payload =>
            if String.eqb payload "payload" then None
            else Some (errorString ("bad ping result: " ++ payload))
        end in
      Close ;;            (* deferred [cc.Close()] *)
      ret result
  end.

(** ** [IsTimeoutError] *)

Definition IsTimeoutError (err : option error) : bool :=
  match err with
  | Some (timeoutError _) => true
  | _ => false
  end.

(** ** Channels *)

Module Chan.

(** A buffered channel: queued values (oldest first), capacity, and the
    number of times [close] was called on it. *)
Record t (A : Type) : Type := mk {
  buf : list A;
  cap : nat;
  closes : nat
}.
Arguments mk {A}.
Arguments buf {A}.
Arguments cap {A}.
Arguments closes {A}.

Definition make {A} (n : nat) : t A := mk [] n 0.

(** [ch <- x]; [None] when the buffer is full and the sender blocks. *)
Definition send {A} (x : A) (c : t A) : option (t A) :=
  if (List.length (buf c) <? cap c)%nat
  then Some (mk (buf c ++ [x]) (cap c) (closes c))
  else None.

(** [x, ok := <-ch]; [None] when the receiver blocks, [Some (None, _)]
    when the channel is closed and drained ([ok] is false). *)
Definition recv {A} (c : t A) : option (option A * t A) :=
  match buf c with
  | x :: rest => Some (Some x, mk rest (cap c) (closes c))
  | [] => if (0 <? closes c)%nat then Some (None, c) else None
  end.

Definition close {A} (c : t A) : t A := mk (buf c) (cap c) (S (closes c)).

Definition closed {A} (c : t A) : bool := (0 <? closes c)%nat.

End Chan.

(** ** Running a machine under a schedule *)

Section Run.

Context {State action : Type}.
Variable step : action -> State -> option State.

(** An action that is not enabled leaves the state as it is. *)
Definition attempt (a : action) (s : State) : State :=
  match step a s with
  | Some s' => s'
  | None => s
  end.

Fixpoint run (sched : list action) (s : State) : State :=
  match sched with
  | [] => s
  | a :: rest => run rest (attempt a s)
  end.

(** The first action of [l] that is enabled in [s], with the state it leads to. *)
Fixpoint firstEnabled (l : list action) (s : State) : option (action * State) :=
  match l with
  | [] => None
  | a :: rest =>
      match step a s with
      | Some s' => Some (a, s')
      | None => firstEnabled rest s
      end
  end.

Definition rotate (n : nat) (l : list action) : list action :=
  skipn (n mod List.length l) l ++ firstn (n mod List.length l) l.

Variable progress : list action.

(** A work-conserving scheduler over the actions [progress]: at step [i] it
    tries them in the order that starts at position [pref i], takes the
    first that is enabled, and stops when none is.  It returns the actions
    taken.  Every maximal run over [progress] arises from some [pref]. *)
Fixpoint drive (pref : nat -> nat) (fuel i : nat) (s : State) : list action :=
  match fuel with
  | 0 => []
  | S n =>
      match firstEnabled (rotate (pref i) progress) s with
      | Some (a, s') => a :: drive pref n (S i) s'
      | None => []
      end
  end.

End Run.

(** ** [HealthStream] *)

Module HealthStream.

Section Machine.

(** [pbt.Tablet], [topo.Tablet] and [topo.ProtoToTablet] are declared
    outside this file. *)
Variables PbTablet Tablet : Type.
Variable ProtoToTablet : PbTablet -> Tablet.

(** [pb.StreamHealthResponse] *)
Record StreamHealthResponse : Type := mkResponse {
  shr_Tablet : PbTablet;
  shr_BinlogPlayerMapSize : Z;
  shr_HealthError : string;
  shr_ReplicationDelay : Z
}.

(** [actionnode.HealthStreamReply] *)
Record HealthStreamReply : Type := mkReply {
  Tablet_ : Tablet;
  BinlogPlayerMapSize : Z;
  HealthError : string;
  ReplicationDelay : Time.Duration
}.

(** The value the goroutine sends for a received [shr]. *)
Definition convert (shr : StreamHealthResponse) : HealthStreamReply :=
  mkReply (ProtoToTablet (shr_Tablet shr))
          (shr_BinlogPlayerMapSize shr)
          (shr_HealthError shr)
          (shr_ReplicationDelay shr).

(** Where the goroutine stands.  It never looks at [ctx]: a context that
    ends shows as the error [stream.Recv()] returns.  [Task] takes the
    goroutine from one blocking point to the next; [TaskErr] stops it between
    [finalErr = err] and [close(logstream)], where the caller can run. *)
Inductive pc : Type :=
| Receiving                          (* about to call [stream.Recv()] *)
| Sending (r : HealthStreamReply)    (* at [logstream <- r] *)
| Closing                            (* past [finalErr = err], at [close(logstream)] *)
| Returned.

Record State : Type := mkState {
  world : World;
  server : list StreamHealthResponse;  (* frames [Recv] has yet to return *)
  serverEnd : foreign;                 (* the error [Recv] returns after them *)
  task : pc;
  logstream : Chan.t HealthStreamReply;
  finalErr : option error;
  consumed : list HealthStreamReply;   (* what the caller read, oldest first *)
  sawClose : bool;                     (* the caller saw [logstream] closed *)
  results : list (option error)        (* values returned by the ErrFunc *)
}.

Inductive action : Type :=
| Task        (* the goroutine runs to its next blocking point *)
| Consume     (* the caller receives from [logstream] *)
| ErrFunc     (* the caller invokes the returned function *)
| TaskErr.    (* the goroutine, when [stream.Recv()] fails, runs up to
                 [close(logstream)] and is descheduled before it *)

(** The returned [func() error]: [cc.Close(); return finalErr]. *)
Definition errFunc (s : State) : option error * State :=
  let (_, w) := Close (world s) in
  (finalErr s,
   mkState w (server s) (serverEnd s) (task s) (logstream s) (finalErr s)
           (consumed s) (sawClose s) (results s ++ [finalErr s])).

Definition step (a : action) (s : State) : option State :=
  match a with
  | Task =>
      match task s with
      | Receiving =>
          match server s with
          | shr :: rest =>
              Some (mkState (world s) rest (serverEnd s) (Sending (convert shr))
                      (logstream s) (finalErr s) (consumed s) (sawClose s) (results s))
          | [] =>
              let err := serverEnd s in
              let finalErr' :=
                if negb (is_EOF err) then Some (Foreign err) else finalErr s in
              Some (mkState (world s) [] (serverEnd s) Returned
                      (Chan.close (logstream s)) finalErr'
                      (consumed s) (sawClose s) (results s))
          end
      | Sending r =>
          match Chan.send r (logstream s) with
          | Some c =>
              Some (mkState (world s) (server s) (serverEnd s) Receiving
                      c (finalErr s) (consumed s) (sawClose s) (results s))
          | None => None
          end
      | Closing =>
          Some (mkState (world s) (server s) (serverEnd s) Returned
                  (Chan.close (logstream s)) (finalErr s)
                  (consumed s) (sawClose s) (results s))
      | Returned => None
      end
  | Consume =>
      if sawClose s then None
      else
        match Chan.recv (logstream s) with
        | Some (Some r, c) =>
            Some (mkState (world s) (server s) (serverEnd s) (task s)
                    c (finalErr s) (consumed s ++ [r]) false (results s))
        | Some (None, _) =>
            Some (mkState (world s) (server s) (serverEnd s) (task s)
                    (logstream s) (finalErr s) (consumed s) true (results s))
        | None => None
        end
  | ErrFunc => Some (snd (errFunc s))
  | TaskErr =>
      match task s, server s with
      | Receiving, [] =>
          let err := serverEnd s in
          let finalErr' :=
            if negb (is_EOF err) then Some (Foreign err) else finalErr s in
          Some (mkState (world s) [] (serverEnd s) Closing
                  (logstream s) finalErr'
                  (consumed s) (sawClose s) (results s))
      | _, _ => None
      end
  end.

(** The state in which the goroutine is started. *)
Definition start (w : World) (frames : list StreamHealthResponse) (ending : foreign) : State :=
  mkState w frames ending Receiving (Chan.make 10) None [] false [].

(** The actions that move frames towards the caller. *)
Definition progress : list action := [Task; Consume].

Definition isErrFunc (a : action) : bool :=
  match a with ErrFunc => true | _ => false end.

(** Number of times the goroutine has returned: 0 or 1. *)
Definition returned (p : pc) : nat :=
  match p with Returned => 1 | _ => 0 end.

(** The reply the goroutine holds while it waits to send. *)
Definition inflight (p : pc) : list HealthStreamReply :=
  match p with Sending r => [r] | _ => [] end.

(** Steps left, at most, before the stream is drained. *)
Definition measure (s : State) : nat :=
  4 * List.length (server s)
  + match task s with Receiving => 1 | Sending _ => 3 | Closing => 1 | Returned => 0 end
  + List.length (Chan.buf (logstream s))
  + (if sawClose s then 0 else 1).

(** The goroutine has seen [stream.Recv()] fail. *)
Definition ended (p : pc) : bool :=
  match p with Closing | Returned => true | _ => false end.

(** What holds of every state reached from [start w0 frames ending]. *)
Record Invariant (w0 : World) (frames : list StreamHealthResponse)
    (ending : foreign) (s : State) : Prop := mkInvariant {
  inv_order :
    (consumed s ++ Chan.buf (logstream s) ++ inflight (task s)
       ++ map convert (server s))%list = map convert frames;
  inv_cap : Chan.cap (logstream s) = 10;
  inv_closes : Chan.closes (logstream s) = returned (task s);
  inv_drained : ended (task s) = true -> server s = [];
  inv_saw : sawClose s = true -> task s = Returned /\ Chan.buf (logstream s) = [];
  inv_final :
    finalErr s = if ended (task s)
                 then (if is_EOF ending then None else Some (Foreign ending))
                 else None;
  inv_end : serverEnd s = ending;
  inv_world :
    world s = mkWorld (dialLog w0) (issued w0)
                      (connCloses w0 + List.length (results s)) (reply w0)
}.

(** What the call returns: an error, or a running stream. *)
Inductive Opened : Type :=
| Failed (err : error) (w : World)
| Streaming (s : State).

Definition HealthStream (env : Env) (ctx : Context) (tablet : TabletInfo)
    (frames : list StreamHealthResponse) (ending : foreign) (w : World) : Opened :=
  let (err, w1) := dial env ctx tablet w in
  match err with
  | Some e => Failed e w1
  | None =>
      let (_, w2) := Go "StreamHealth" w1 in
      match streamAnswer env with
      | Some e => let (_, w3) := Close w2 in Failed (Foreign e) w3
      | None => Streaming (start w2 frames ending)
      end
  end.

End Machine.

Arguments mkResponse {PbTablet}.
Arguments mkReply {Tablet}.
Arguments Receiving {Tablet}.
Arguments Returned {Tablet}.
Arguments Closing {Tablet}.
Arguments Sending {Tablet}.
Arguments shr_Tablet {PbTablet}.
Arguments shr_BinlogPlayerMapSize {PbTablet}.
Arguments shr_HealthError {PbTablet}.
Arguments shr_ReplicationDelay {PbTablet}.
Arguments Tablet_ {Tablet}.
Arguments BinlogPlayerMapSize {Tablet}.
Arguments HealthError {Tablet}.
Arguments ReplicationDelay {Tablet}.
Arguments ended {Tablet}.
Arguments world {PbTablet Tablet}.
Arguments server {PbTablet Tablet}.
Arguments serverEnd {PbTablet Tablet}.
Arguments task {PbTablet Tablet}.
Arguments logstream {PbTablet Tablet}.
Arguments finalErr {PbTablet Tablet}.
Arguments consumed {PbTablet Tablet}.
Arguments sawClose {PbTablet Tablet}.
Arguments results {PbTablet Tablet}.
Arguments mkState {PbTablet Tablet}.
Arguments errFunc {PbTablet Tablet}.
Arguments convert {PbTablet Tablet}.
Arguments step {PbTablet Tablet}.
Arguments HealthStream {PbTablet Tablet}.
Arguments start {PbTablet Tablet}.
Arguments returned {Tablet}.
Arguments inflight {Tablet}.
Arguments measure {PbTablet Tablet}.
Arguments Invariant {PbTablet Tablet}.
Arguments Failed {PbTablet Tablet}.
Arguments Streaming {PbTablet Tablet}.

End HealthStream.

(** ** [Backup] *)

Module Backup.

Section Machine.

(** [logutil.LoggerEvent] is declared outside this file. *)
Variable LoggerEvent : Type.

(** Where the goroutine stands. *)
Inductive pc : Type :=
| Selecting                    (* at the [select] *)
| Sending (ssr : LoggerEvent)  (* at [logstream <- ssr] *)
| Returned.

Record State : Type := mkState {
  world : World;
  ctxErr_ : option ctxErr;            (* [ctx.Err()]; [None] while [ctx.Done()] is open *)
  pending : list LoggerEvent;         (* events rpcplus has yet to put on [rpcstream] *)
  rpcEnd : option foreign;            (* how the remote stream ends *)
  rpcstream : Chan.t LoggerEvent;
  cError : option foreign;            (* [c.Error] *)
  task : pc;
  logstream : Chan.t LoggerEvent;
  interrupted : bool;
  consumed : list LoggerEvent;        (* what the caller read, oldest first *)
  sawClose : bool;                    (* the caller saw [logstream] closed *)
  results : list (option error)       (* values returned by the ErrFunc *)
}.

Inductive action : Type :=
| Cancel (cause : ctxErr)   (* the context is cancelled or its deadline passes *)
| Deliver                   (* rpcplus feeds or closes [rpcstream] *)
| TaskDone                  (* the select takes [<-ctx.Done()] *)
| TaskRecv                  (* the select takes [<-rpcstream] *)
| TaskSend                  (* [logstream <- ssr] goes through *)
| Consume                   (* the caller receives from [logstream] *)
| ErrFunc.                  (* the caller invokes the returned function *)

Definition interruptedError : error :=
  errorString "TabletManager.Backup interrupted by context".

(** The returned [func() error]. *)
Definition errFunc (s : State) : option error * State :=
  let result :=
    if interrupted s then Some interruptedError
    else option_map Foreign (cError s) in
  (result,
   mkState (world s) (ctxErr_ s) (pending s) (rpcEnd s) (rpcstream s) (cError s)
           (task s) (logstream s) (interrupted s) (consumed s) (sawClose s)
           (results s ++ [result])).

(** [close(logstream); rpcClient.Close(); return], with [interrupted] as given. *)
Definition finish (flag : bool) (s : State) : State :=
  let (_, w) := Close (world s) in
  mkState w (ctxErr_ s) (pending s) (rpcEnd s) (rpcstream s) (cError s)
          Returned (Chan.close (logstream s)) flag
          (consumed s) (sawClose s) (results s).

Definition step (a : action) (s : State) : option State :=
  match a with
  | Cancel cause =>
      match ctxErr_ s with
      | Some _ => None
      | None =>
          Some (mkState (world s) (Some cause) (pending s) (rpcEnd s) (rpcstream s)
                  (cError s) (task s) (logstream s) (interrupted s)
                  (consumed s) (sawClose s) (results s))
      end
  | Deliver =>
      if Chan.closed (rpcstream s) then None
      else
        match pending s with
        | ev :: rest =>
            match Chan.send ev (rpcstream s) with
            | Some c =>
                Some (mkState (world s) (ctxErr_ s) rest (rpcEnd s) c
                        (cError s) (task s) (logstream s) (interrupted s)
                        (consumed s) (sawClose s) (results s))
            | None => None
            end
        | [] =>
            Some (mkState (world s) (ctxErr_ s) [] (rpcEnd s)
                    (Chan.close (rpcstream s)) (rpcEnd s)
                    (task s) (logstream s) (interrupted s)
                    (consumed s) (sawClose s) (results s))
        end
  | TaskDone =>
      match task s, ctxErr_ s with
      | Selecting, Some _ => Some (finish true s)
      | _, _ => None
      end
  | TaskRecv =>
      match task s with
      | Selecting =>
          match Chan.recv (rpcstream s) with
          | Some (Some ssr, c) =>
              Some (mkState (world s) (ctxErr_ s) (pending s) (rpcEnd s) c
                      (cError s) (Sending ssr) (logstream s) (interrupted s)
                      (consumed s) (sawClose s) (results s))
          | Some (None, _) => Some (finish (interrupted s) s)
          | None => None
          end
      | _ => None
      end
  | TaskSend =>
      match task s with
      | Sending ssr =>
          match Chan.send ssr (logstream s) with
          | Some c =>
              Some (mkState (world s) (ctxErr_ s) (pending s) (rpcEnd s) (rpcstream s)
                      (cError s) Selecting c (interrupted s)
                      (consumed s) (sawClose s) (results s))
          | None => None
          end
      | _ => None
      end
  | Consume =>
      if sawClose s then None
      else
        match Chan.recv (logstream s) with
        | Some (Some r, c) =>
            Some (mkState (world s) (ctxErr_ s) (pending s) (rpcEnd s) (rpcstream s)
                    (cError s) (task s) c (interrupted s)
                    (consumed s ++ [r]) false (results s))
        | Some (None, _) =>
            Some (mkState (world s) (ctxErr_ s) (pending s) (rpcEnd s) (rpcstream s)
                    (cError s) (task s) (logstream s) (interrupted s)
                    (consumed s) true (results s))
        | None => None
        end
  | ErrFunc => Some (snd (errFunc s))
  end.

(** The state in which the goroutine is started. *)
Definition start (w : World) (events : list LoggerEvent) (ending : option foreign) : State :=
  mkState w None events ending (Chan.make 10) None
          Selecting (Chan.make 10) false [] false [].

(** The actions that move events towards the caller. *)
Definition progress : list action := [Deliver; TaskRecv; TaskSend; Consume].

Definition isErrFunc (a : action) : bool :=
  match a with ErrFunc => true | _ => false end.

(** Number of times the goroutine has returned: 0 or 1. *)
Definition returned (p : pc) : nat :=
  match p with Returned => 1 | _ => 0 end.

(** The event the goroutine holds while it waits to send. *)
Definition inflight (p : pc) : list LoggerEvent :=
  match p with Sending ssr => [ssr] | _ => [] end.

(** Steps left, at most, before the stream is drained. *)
Definition measure (s : State) : nat :=
  4 * List.length (pending s)
  + 3 * List.length (Chan.buf (rpcstream s))
  + (if Chan.closed (rpcstream s) then 0 else 1)
  + match task s with Selecting => 1 | Sending _ => 3 | Returned => 0 end
  + List.length (Chan.buf (logstream s))
  + (if sawClose s then 0 else 1).

(** What holds of every state reached from [start w0 events ending]. *)
Record Invariant (w0 : World) (events : list LoggerEvent)
    (ending : option foreign) (s : State) : Prop := mkInvariant {
  inv_order :
    (consumed s ++ Chan.buf (logstream s) ++ inflight (task s)
       ++ Chan.buf (rpcstream s) ++ pending s)%list = events;
  inv_cap : Chan.cap (logstream s) = 10;
  inv_rpc_cap : Chan.cap (rpcstream s) = 10;
  inv_closes : Chan.closes (logstream s) = returned (task s);
  inv_world :
    world s = mkWorld (dialLog w0) (issued w0)
                      (connCloses w0 + returned (task s)) (reply w0);
  inv_interrupted :
    interrupted s = true -> task s = Returned /\ ctxErr_ s <> None;
  inv_ended :
    task s = Returned -> interrupted s = false ->
    Chan.closed (rpcstream s) = true /\ Chan.buf (rpcstream s) = [];
  inv_rpc_closed :
    Chan.closed (rpcstream s) = true -> pending s = [] /\ cError s = ending;
  inv_end : rpcEnd s = ending;
  inv_saw : sawClose s = true -> task s = Returned /\ Chan.buf (logstream s) = []
}.

(** What the call returns: an error, or a running stream. *)
Inductive Opened : Type :=
| Failed (err : error) (w : World)
| Streaming (s : State).

Definition Backup (env : Env) (ctx : Context) (tablet : TabletInfo)
    (events : list LoggerEvent) (ending : option foreign) (w : World) : Opened :=
  let connectTimeout := connectTimeoutOf env ctx in
  if isSome (Deadline ctx) && (connectTimeout <? 0)%Z then
    Failed (timeoutError (errorString
      ("timeout connecting to TabletManager.Backup on " ++ Alias tablet))) w
  else
    let (err, w1) := Dial env (bsonrpc_DialHTTP "tcp" (Addr tablet) connectTimeout) w in
    match err with
    | Some e => Failed (Foreign e) w1
    | None =>
        let (_, w2) := Go "TabletManager.Backup" w1 in
        Streaming (start w2 events ending)
    end.

End Machine.

Arguments Selecting {LoggerEvent}.
Arguments Returned {LoggerEvent}.
Arguments Sending {LoggerEvent}.
Arguments world {LoggerEvent}.
Arguments ctxErr_ {LoggerEvent}.
Arguments pending {LoggerEvent}.
Arguments rpcEnd {LoggerEvent}.
Arguments rpcstream {LoggerEvent}.
Arguments cError {LoggerEvent}.
Arguments task {LoggerEvent}.
Arguments logstream {LoggerEvent}.
Arguments interrupted {LoggerEvent}.
Arguments consumed {LoggerEvent}.
Arguments sawClose {LoggerEvent}.
Arguments results {LoggerEvent}.
Arguments mkState {LoggerEvent}.
Arguments errFunc {LoggerEvent}.
Arguments finish {LoggerEvent}.
Arguments step {LoggerEvent}.
Arguments Backup {LoggerEvent}.
Arguments start {LoggerEvent}.
Arguments returned {LoggerEvent}.
Arguments inflight {LoggerEvent}.
Arguments measure {LoggerEvent}.
Arguments Invariant {LoggerEvent}.
Arguments Failed {LoggerEvent}.
Arguments Streaming {LoggerEvent}.

End Backup.


(** ** The unary grpc wrappers *)

(** The body shared by the wrappers that return only an error:
    [cc, c, err := client.dial(ctx, tablet)], return [err] if it is not nil,
    [defer cc.Close()], [_, err = c.<method>(ctx, request)], [return err]. *)
Definition callUnary (env : Env) (ctx : Context) (tablet : TabletInfo)
    (method : string) : M (option error) :=
  err <- dial env ctx tablet ;;
  match err with
  | Some e => ret (Some e)
  | None =>
      r <- unary env method ;;
      let result :=
        match r with
        | inl e => Some (Foreign e)
        | inr _ => None
        end in
      Close ;;            (* deferred [cc.Close()] *)
      ret result
  end.

Definition Sleep (env : Env) (ctx : Context) (tablet : TabletInfo) : M (option error) :=
  callUnary env ctx tablet "Sleep".

Definition SetReadOnly (env : Env) (ctx : Context) (tablet : TabletInfo) : M (option error) :=
  callUnary env ctx tablet "SetReadOnly".

Definition SetReadWrite (env : Env) (ctx : Context) (tablet : TabletInfo) : M (option error) :=
  callUnary env ctx tablet "SetReadWrite".

Definition ChangeType (env : Env) (ctx : Context) (tablet : TabletInfo) : M (option error) :=
  callUnary env ctx tablet "ChangeType".

Definition Scrap (env : Env) (ctx : Context) (tablet : TabletInfo) : M (option error) :=
  callUnary env ctx tablet "Scrap".

Definition RefreshState (env : Env) (ctx : Context) (tablet : TabletInfo) : M (option error) :=
  callUnary env ctx tablet "RefreshState".

Definition RunHealthCheck (env : Env) (ctx : Context) (tablet : TabletInfo) : M (option error) :=
  callUnary env ctx tablet "RunHealthCheck".

Definition ReloadSchema (env : Env) (ctx : Context) (tablet : TabletInfo) : M (option error) :=
  callUnary env ctx tablet "ReloadSchema".

(** The wrappers of that shape. *)
Definition unaryWrappers : list (Env -> Context -> TabletInfo -> M (option error)) :=
  [Sleep; SetReadOnly; SetReadWrite; ChangeType; Scrap; RefreshState;
   RunHealthCheck; ReloadSchema].

(** ** [InitSlave] and [SetMaster] *)

Section Reparenting.

(** [topo.TabletAlias], [myproto.ReplicationPosition] and the action names of
    package actionnode are declared outside this file. *)
Variables TabletAlias ReplicationPosition : Type.
Variables TabletActionInitSlave TabletActionSetMaster : string.

(** [gorpcproto.InitSlaveArgs] *)
Record InitSlaveArgs : Type := mkInitSlaveArgs {
  isa_Parent : TabletAlias;
  isa_ReplicationPosition : ReplicationPosition;
  isa_TimeCreatedNS : Z;
  isa_WaitTimeout : Time.Duration
}.

(** [gorpcproto.SetMasterArgs] *)
Record SetMasterArgs : Type := mkSetMasterArgs {
  sma_Parent : TabletAlias;
  sma_TimeCreatedNS : Z;
  sma_ForceStartSlave : bool;
  sma_WaitTimeout : Time.Duration
}.

(** [args] as [InitSlave] holds it after its own deadline test; [now0] is
    what its own [time.Now()] returned. *)
Definition InitSlave_args (now0 : Time.Time) (ctx : Context) (parent : TabletAlias)
    (replicationPosition : ReplicationPosition) (timeCreatedNS : Z) : InitSlaveArgs :=
  mkInitSlaveArgs parent replicationPosition timeCreatedNS
    match Deadline ctx with
    | Some deadline => Time.Sub deadline now0
    | None => 0%Z
    end.

(** [InitSlave]; [rpcCallTablet] reads the clock again, from [env]. *)
Definition InitSlave (now0 : Time.Time) (env : Env) (ctx : Context) (tablet : TabletInfo)
    (parent : TabletAlias) (replicationPosition : ReplicationPosition)
    (timeCreatedNS : Z) : M (option error) :=
  let args := InitSlave_args now0 ctx parent replicationPosition timeCreatedNS in
  if isSome (Deadline ctx) && (isa_WaitTimeout args <? 0)%Z then
    ret (Some (timeoutError (errorString
      ("timeout connecting to TabletManager.InitSlave on " ++ Alias tablet))))
  else
    rpcCallTablet env ctx tablet TabletActionInitSlave.

Definition SetMaster_args (now0 : Time.Time) (ctx : Context) (parent : TabletAlias)
    (timeCreatedNS : Z) (forceStartSlave : bool) : SetMasterArgs :=
  mkSetMasterArgs parent timeCreatedNS forceStartSlave
    match Deadline ctx with
    | Some deadline => Time.Sub deadline now0
    | None => 0%Z
    end.

Definition SetMaster (now0 : Time.Time) (env : Env) (ctx : Context) (tablet : TabletInfo)
    (parent : TabletAlias) (timeCreatedNS : Z) (forceStartSlave : bool) : M (option error) :=
  let args := SetMaster_args now0 ctx parent timeCreatedNS forceStartSlave in
  if isSome (Deadline ctx) && (sma_WaitTimeout args <? 0)%Z then
    ret (Some (timeoutError (errorString
      ("timeout connecting to TabletManager.SetMaster on " ++ Alias tablet))))
  else
    rpcCallTablet env ctx tablet TabletActionSetMaster.

End Reparenting.

Arguments mkInitSlaveArgs {TabletAlias ReplicationPosition}.
Arguments isa_Parent {TabletAlias ReplicationPosition}.
Arguments isa_ReplicationPosition {TabletAlias ReplicationPosition}.
Arguments isa_TimeCreatedNS {TabletAlias ReplicationPosition}.
Arguments isa_WaitTimeout {TabletAlias ReplicationPosition}.
Arguments mkSetMasterArgs {TabletAlias}.
Arguments sma_Parent {TabletAlias}.
Arguments sma_TimeCreatedNS {TabletAlias}.
Arguments sma_ForceStartSlave {TabletAlias}.
Arguments sma_WaitTimeout {TabletAlias}.
Arguments InitSlave_args {TabletAlias ReplicationPosition}.
Arguments InitSlave {TabletAlias ReplicationPosition}.
Arguments SetMaster_args {TabletAlias}.
Arguments SetMaster {TabletAlias}.

(** ** Reading the dial log *)

(** Connections opened by the dial attempts of [log], as [env] answers them. *)
Definition opened (env : Env) (log : list DialReq) : nat :=
  List.length (filter (fun req => negb (isSome (dialAnswer env req))) log).

(** The test that guards every dial: a deadline is set and lies before the
    clock reading of [env]. *)
Definition expired (env : Env) (ctx : Context) : bool :=
  isSome (Deadline ctx) && (connectTimeoutOf env ctx <? 0)%Z.

(** The request [dial] makes once that test has passed. *)
Definition dialRequest (env : Env) (ctx : Context) (tablet : TabletInfo) : DialReq :=
  if (connectTimeoutOf env ctx =? 0)%Z
  then grpc_Dial (Addr tablet) true None
  else grpc_Dial (Addr tablet) true (Some (connectTimeoutOf env ctx)).

(** The request [rpcCallTablet] and [Backup] make once that test has passed. *)
Definition httpRequest (env : Env) (ctx : Context) (tablet : TabletInfo) : DialReq :=
  bsonrpc_DialHTTP "tcp" (Addr tablet) (connectTimeoutOf env ctx).

(** The timeout a request bounds the dialer with, if any: [grpc.Dial]
    without [WithTimeout], and [DialHTTP] with a zero timeout, wait
    without bound. *)
Definition boundOf (req : DialReq) : option Time.Duration :=
  match req with
  | grpc_Dial _ _ t => t
  | bsonrpc_DialHTTP _ _ d => if (d =? 0)%Z then None else Some d
  end.

(** No dialer is asked with a negative timeout, [grpc.Dial] always blocks,
    and [grpc.WithTimeout] is given a positive timeout only. *)
Definition saneTimeout (req : DialReq) : bool :=
  match req with
  | grpc_Dial _ withBlock None => withBlock
  | grpc_Dial _ withBlock (Some d) => withBlock && (0 <? d)%Z
  | bsonrpc_DialHTTP _ _ d => (0 <=? d)%Z
  end.

(** [call] makes at most one dial attempt and calls [Close] once for each
    connection it opened: it returns with nothing left open. *)
Definition releasesWhatItOpens (env : Env) (call : M (option error)) : Prop :=
  forall w,
    exists new,
      dialLog (snd (call w)) = (dialLog w ++ new)%list /\
      List.length new <= 1 /\
      connCloses (snd (call w)) = connCloses w + opened env new.

(** ** Sample inputs *)

Definition sampleTablet : TabletInfo := mkTablet "cell-0000000001" "host:15999".

(** A context whose deadline is [d]. *)
Definition withDeadline (d : Time.Time) : Context := mkContext (Some d).

(** [context.Background()]: no deadline. *)
Definition background : Context := mkContext None.

(** An environment at time [t] whose dialers answer [d] and whose select
    resolves to [wt]. *)
Definition sampleEnv (t : Time.Time) (d : option foreign) (wt : Wait) : Env :=
  mkEnv t (fun _ => d) wt (inr "payload") None.

(** A frame of a health stream whose tablets are rendered as strings. *)
Definition sampleFrame (size : Z) : HealthStream.StreamHealthResponse string :=
  HealthStream.mkResponse "tablet" size "" 0%Z.

(** Stands for [topo.ProtoToTablet] on that rendering. *)
Definition sampleConv (t : string) : string := t.

(** A frame with every field set. *)
Definition healthFrame (size : Z) (healthError : string) (delay : Z)
    : HealthStream.StreamHealthResponse string :=
  HealthStream.mkResponse "cell-0000000001" size healthError delay.

(** Stands for [topo.ProtoToTablet], leaving a mark on what it converts. *)
Definition sampleTopo (t : string) : string := "topo:" ++ t.

(** * Properties *)

(** ** Occurrences in messages *)

Lemma hasPrefix_app (s t : string) : Str.hasPrefix s (s ++ t) = true.
Proof.
  induction s as [|c s IH]; simpl; [reflexivity|].
  now rewrite Ascii.eqb_refl.
Qed.

Lemma hasPrefix_split (s t : string) :
  Str.hasPrefix s t = true -> exists r, t = s ++ r.
Proof.
  revert t; induction s as [|c s IH]; intros t H; simpl in *.
  - now exists t.
  - destruct t as [|d t]; [discriminate|].
    apply andb_true_iff in H as [E H]. apply Ascii.eqb_eq in E as ->.
    destruct (IH _ H) as [r ->]. now exists r.
Qed.

Lemma append_assoc (a b c : string) : (a ++ b) ++ c = a ++ (b ++ c).
Proof. induction a as [|x a IH]; simpl; [reflexivity | now rewrite IH]. Qed.

Lemma contains_hasPrefix (needle hay : string) :
  Str.hasPrefix needle hay = true -> Str.contains needle hay = true.
Proof. destruct hay; simpl; intros ->; reflexivity. Qed.

Lemma contains_intro (pre needle post : string) :
  Str.contains needle (pre ++ needle ++ post) = true.
Proof.
  induction pre as [|c pre IH]; simpl.
  - apply contains_hasPrefix, hasPrefix_app.
  - rewrite IH. apply orb_true_r.
Qed.

Lemma contains_elim (needle hay : string) :
  Str.contains needle hay = true -> exists pre post, hay = pre ++ needle ++ post.
Proof.
  induction hay as [|c hay IH]; simpl; intros H;
    apply orb_true_iff in H as [P|H].
  - destruct (hasPrefix_split _ _ P) as [r ->]. now exists "", r.
  - discriminate.
  - destruct (hasPrefix_split _ _ P) as [r ->]. now exists "", r.
  - destruct (IH H) as (pre & post & ->). now exists (String c pre), post.
Qed.

(** [contains] decides infix occurrence. *)
Lemma contains_spec (needle hay : string) :
  Str.contains needle hay = true <-> exists pre post, hay = pre ++ needle ++ post.
Proof.
  split; [apply contains_elim|]. intros (pre & post & ->). apply contains_intro.
Qed.

Lemma contains_refl (needle : string) : Str.contains needle needle = true.
Proof.
  apply contains_spec. exists "", "". simpl.
  induction needle as [|c n IH]; simpl; [reflexivity | now rewrite <- IH].
Qed.

Lemma contains_app_r (needle a b : string) :
  Str.contains needle b = true -> Str.contains needle (a ++ b) = true.
Proof.
  intros H. apply contains_spec in H as (p & q & ->).
  apply contains_spec. exists (a ++ p), q. now rewrite append_assoc.
Qed.

Lemma contains_app_l (needle a b : string) :
  Str.contains needle a = true -> Str.contains needle (a ++ b) = true.
Proof.
  intros H. apply contains_spec in H as (p & q & ->).
  apply contains_spec. exists p, (q ++ b). now rewrite !append_assoc.
Qed.

Lemma contains_cons (needle rest : string) (c : ascii) :
  Str.contains needle rest = true -> Str.contains needle (String c rest) = true.
Proof. intros H. simpl. rewrite H. apply orb_true_r. Qed.

(** Finds [needle] among the operands of a chain of appends, below any
    literal characters in front of it. *)
Ltac find_in_message :=
  first [ apply contains_refl
        | apply contains_app_l; apply contains_refl
        | apply contains_app_r; find_in_message
        | apply contains_cons; find_in_message ].

(** ** Durations *)

Lemma Sub_neg (t u : Time.Time) : (t < u <-> Time.Sub t u < 0)%Z.
Proof.
  unfold Time.Sub, Time.minDuration, Time.maxDuration.
  destruct (Z.ltb_spec (t - u)%Z (- 2 ^ 63)%Z); [lia|].
  destruct (Z.ltb_spec (2 ^ 63 - 1)%Z (t - u)%Z); lia.
Qed.

Lemma Sub_zero (t u : Time.Time) : Time.Sub t u = 0%Z <-> t = u.
Proof.
  unfold Time.Sub, Time.minDuration, Time.maxDuration.
  destruct (Z.ltb_spec (t - u)%Z (- 2 ^ 63)%Z); [lia|].
  destruct (Z.ltb_spec (2 ^ 63 - 1)%Z (t - u)%Z); lia.
Qed.

(** ** The deadline guard *)

Lemma guard_expired (env : Env) (ctx : Context) (deadline : Time.Time) :
  Deadline ctx = Some deadline ->
  (deadline < now env)%Z ->
  isSome (Deadline ctx) && (connectTimeoutOf env ctx <? 0)%Z = true.
Proof.
  intros Hd Hlt. unfold connectTimeoutOf. rewrite Hd. simpl.
  apply Z.ltb_lt. apply (proj1 (Sub_neg _ _)). exact Hlt.
Qed.

Lemma guard_live (env : Env) (ctx : Context) :
  (forall deadline, Deadline ctx = Some deadline -> (now env <= deadline)%Z) ->
  isSome (Deadline ctx) && (connectTimeoutOf env ctx <? 0)%Z = false.
Proof.
  intros H. unfold connectTimeoutOf. destruct (Deadline ctx) as [d|]; [|reflexivity].
  simpl. apply Z.ltb_ge. specialize (H d eq_refl).
  destruct (Z.lt_ge_cases (Time.Sub d (now env)) 0) as [C|C]; [|exact C].
  apply (proj2 (Sub_neg _ _)) in C. lia.
Qed.

(** What each entry point does when the guard fires. *)
Lemma dial_expired (env : Env) (ctx : Context) (tablet : TabletInfo) (w : World) :
  isSome (Deadline ctx) && (connectTimeoutOf env ctx <? 0)%Z = true ->
  dial env ctx tablet w =
  (Some (timeoutError (errorString
     ("timeout connecting to TabletManager on " ++ Alias tablet))), w).
Proof. intros G. unfold dial. rewrite G. reflexivity. Qed.

Lemma rpcCallTablet_expired (env : Env) (ctx : Context) (tablet : TabletInfo)
    (name : string) (w : World) :
  isSome (Deadline ctx) && (connectTimeoutOf env ctx <? 0)%Z = true ->
  rpcCallTablet env ctx tablet name w =
  (Some (timeoutError (errorString
     ("timeout connecting to TabletManager." ++ name ++ " on " ++ Alias tablet))), w).
Proof. intros G. unfold rpcCallTablet. rewrite G. reflexivity. Qed.

Lemma Backup_expired (env : Env) (ctx : Context) (tablet : TabletInfo)
    (LoggerEvent : Type) (events : list LoggerEvent) (ending : option foreign)
    (w : World) :
  isSome (Deadline ctx) && (connectTimeoutOf env ctx <? 0)%Z = true ->
  Backup.Backup env ctx tablet events ending w =
  Backup.Failed (timeoutError (errorString
     ("timeout connecting to TabletManager.Backup on " ++ Alias tablet))) w.
Proof. intros G. unfold Backup.Backup. rewrite G. reflexivity. Qed.

(** C1: a call whose deadline lies strictly in the past fails at once with an
    error of the [timeoutError] kind, and the world is left exactly as it
    was: no dialer has been invoked.  This holds for [dial], for
    [rpcCallTablet], for a wrapper built on [dial] and for both streaming
    calls. *)
Theorem expired_deadline_rejected_before_dial
    (env : Env) (ctx : Context) (tablet : TabletInfo)
    (deadline : Time.Time) (w : World) :
  Deadline ctx = Some deadline ->
  (deadline < now env)%Z ->
  (exists e, dial env ctx tablet w = (Some (timeoutError e), w)) /\
  (forall name,
     exists e, rpcCallTablet env ctx tablet name w = (Some (timeoutError e), w)) /\
  (exists e, Ping env ctx tablet w = (Some (timeoutError e), w)) /\
  (forall (PbTablet Tablet : Type)
          (frames : list (HealthStream.StreamHealthResponse PbTablet)) ending,
     exists e,
       @HealthStream.HealthStream PbTablet Tablet env ctx tablet frames ending w
       = HealthStream.Failed (timeoutError e) w) /\
  (forall (LoggerEvent : Type) (events : list LoggerEvent) ending,
     exists e,
       Backup.Backup env ctx tablet events ending w
       = Backup.Failed (timeoutError e) w).
Proof.
  intros Hd Hlt. pose proof (guard_expired env ctx deadline Hd Hlt) as G.
  repeat split; intros.
  - rewrite (dial_expired env ctx tablet w G). eexists. reflexivity.
  - rewrite (rpcCallTablet_expired env ctx tablet name w G). eexists. reflexivity.
  - unfold Ping, bind. rewrite (dial_expired env ctx tablet w G). eexists. reflexivity.
  - unfold HealthStream.HealthStream. rewrite (dial_expired env ctx tablet w G).
    eexists. reflexivity.
  - rewrite (Backup_expired env ctx tablet LoggerEvent events ending w G).
    eexists. reflexivity.
Qed.

Lemma expired_deadline_rejected_before_dial_witness :
  let env := sampleEnv 100%Z None (ctxDone Canceled) in
  IsTimeoutError (fst (dial env (withDeadline 99%Z) sampleTablet emptyWorld)) = true /\
  dialLog (snd (dial env (withDeadline 99%Z) sampleTablet emptyWorld)) = [] /\
  IsTimeoutError (fst (rpcCallTablet env (withDeadline 99%Z) sampleTablet "Ping" emptyWorld)) = true /\
  dialLog (snd (rpcCallTablet env (withDeadline 99%Z) sampleTablet "Ping" emptyWorld)) = [].
Proof.
  intros env.
  destruct (expired_deadline_rejected_before_dial env (withDeadline 99%Z) sampleTablet
              99%Z emptyWorld eq_refl) as ([e1 E1] & H2 & _).
  - simpl. lia.
  - destruct (H2 "Ping") as [e2 E2]. rewrite E1, E2. repeat split.
Defined.

(** ** The synchronous invoker *)

Ltac run_world :=
  unfold bind, ret, Dial, Go, select, unary, Close; simpl.

(** [rpcCallTablet] once the guard has passed and the dialer has connected. *)
Lemma rpcCallTablet_connected (env : Env) (ctx : Context) (tablet : TabletInfo)
    (name : string) (w : World) :
  isSome (Deadline ctx) && (connectTimeoutOf env ctx <? 0)%Z = false ->
  dialAnswer env (bsonrpc_DialHTTP "tcp" (Addr tablet) (connectTimeoutOf env ctx)) = None ->
  rpcCallTablet env ctx tablet name w =
  (match waitAnswer env with
   | ctxDone cause =>
       if ctxErr_eqb cause DeadlineExceeded then
         Some (timeoutError (errorString
           ("timeout waiting for TabletManager." ++ name ++ " to " ++ Alias tablet)))
       else
         Some (errorString
           ("interrupted waiting for TabletManager." ++ name ++ " to " ++ Alias tablet))
   | callDone (Some callError) _ =>
       Some (errorString
         ("remote error for " ++ Alias tablet ++ ": " ++ foreign_Error callError))
   | callDone None _ => None
   end,
   mkWorld (dialLog w ++ [bsonrpc_DialHTTP "tcp" (Addr tablet) (connectTimeoutOf env ctx)])
           (issued w ++ ["TabletManager." ++ name])
           (S (connCloses w))
           (match waitAnswer env with
            | callDone None result => Some result
            | _ => reply w
            end)).
Proof.
  intros G D. unfold rpcCallTablet. rewrite G. run_world. rewrite D.
  destruct (waitAnswer env) as [cause | [callError|] result]; reflexivity.
Qed.

(** [rpcCallTablet] once the guard has passed and the dialer has failed. *)
Lemma rpcCallTablet_unconnected (env : Env) (ctx : Context) (tablet : TabletInfo)
    (name : string) (w : World) (f : foreign) :
  isSome (Deadline ctx) && (connectTimeoutOf env ctx <? 0)%Z = false ->
  dialAnswer env (bsonrpc_DialHTTP "tcp" (Addr tablet) (connectTimeoutOf env ctx)) = Some f ->
  rpcCallTablet env ctx tablet name w =
  (Some (errorString ("RPC error for " ++ Alias tablet ++ ": " ++ foreign_Error f)),
   mkWorld (dialLog w ++ [bsonrpc_DialHTTP "tcp" (Addr tablet) (connectTimeoutOf env ctx)])
           (issued w) (connCloses w) (reply w)).
Proof.
  intros G D. unfold rpcCallTablet. rewrite G. run_world. rewrite D. reflexivity.
Qed.

(** C2: once [rpcCallTablet] has issued the remote call, the select on
    cancellation and completion resolves to one of four outcomes: a
    [timeoutError] naming operation and endpoint when the context ended by
    deadline expiry, an "interrupted" error when it ended otherwise, a
    "remote error" carrying the endpoint and the remote message when the call
    completed with an error, and success with the reply destination filled
    when it completed cleanly.  In every case the method was issued once and
    the connection closed once. *)
Theorem rpcCallTablet_select_outcomes
    (env : Env) (ctx : Context) (tablet : TabletInfo) (name : string) (w : World) :
  (forall deadline, Deadline ctx = Some deadline -> (now env <= deadline)%Z) ->
  dialAnswer env (bsonrpc_DialHTTP "tcp" (Addr tablet) (connectTimeoutOf env ctx)) = None ->
  let r := rpcCallTablet env ctx tablet name w in
  issued (snd r) = (issued w ++ [("TabletManager." ++ name)%string])%list /\
  connCloses (snd r) = S (connCloses w) /\
  match waitAnswer env with
  | ctxDone DeadlineExceeded =>
      fst r = Some (timeoutError (errorString
                ("timeout waiting for TabletManager." ++ name ++ " to " ++ Alias tablet)))
      /\ reply (snd r) = reply w
  | ctxDone Canceled =>
      fst r = Some (errorString
                ("interrupted waiting for TabletManager." ++ name ++ " to " ++ Alias tablet))
      /\ reply (snd r) = reply w
  | callDone (Some callError) _ =>
      fst r = Some (errorString
                ("remote error for " ++ Alias tablet ++ ": " ++ foreign_Error callError))
      /\ reply (snd r) = reply w
  | callDone None result =>
      fst r = None /\ reply (snd r) = Some result
  end.
Proof.
  intros L D r. subst r.
  rewrite (rpcCallTablet_connected env ctx tablet name w (guard_live env ctx L) D).
  simpl. repeat split;
    destruct (waitAnswer env) as [[|] | [callError|] result]; simpl; auto.
Qed.

Lemma rpcCallTablet_select_outcomes_witness :
  let env := sampleEnv 100%Z None (ctxDone DeadlineExceeded) in
  let r := rpcCallTablet env (withDeadline 200%Z) sampleTablet "SlaveStatus" emptyWorld in
  fst r = Some (timeoutError (errorString
            "timeout waiting for TabletManager.SlaveStatus to cell-0000000001"))
  /\ issued (snd r) = ["TabletManager.SlaveStatus"]
  /\ connCloses (snd r) = 1.
Proof.
  intros env r.
  assert (L : forall deadline, Deadline (withDeadline 200%Z) = Some deadline ->
                               (now env <= deadline)%Z).
  { intros d E. injection E as <-. simpl. lia. }
  pose proof (rpcCallTablet_select_outcomes env (withDeadline 200%Z) sampleTablet
              "SlaveStatus" emptyWorld L eq_refl) as H.
  cbv zeta in H. simpl waitAnswer in H. destruct H as (I & C & E & _).
  split; [exact E | split; [exact I | exact C]].
Defined.

(** ** Connection failures *)

(** C6, as stated, fails on [rpcCallTablet]: a dial failure is not returned
    as it is but rewrapped into a new error. *)
Lemma rpcCallTablet_rewraps_connect_failure :
  let refused := opaque "connection refused" in
  let env := sampleEnv 0%Z (Some refused) (ctxDone Canceled) in
  let r := rpcCallTablet env background sampleTablet "Ping" emptyWorld in
  fst r = Some (errorString "RPC error for cell-0000000001: connection refused") /\
  fst r <> Some (Foreign refused) /\
  dialLog (snd r) = [bsonrpc_DialHTTP "tcp" "host:15999" 0%Z].
Proof. repeat split. discriminate. Qed.

(** C6, amended: when the guard passes and the dialer fails with [f], [dial]
    (and with it the wrappers and [HealthStream]) and [Backup] return [f]
    itself; [rpcCallTablet] returns a fresh error whose message is
    "RPC error for <alias>: <message of f>".  None of them is of the
    [timeoutError] kind. *)
Theorem connect_failure_surfacing
    (env : Env) (ctx : Context) (tablet : TabletInfo) (w : World) (f : foreign) :
  (forall deadline, Deadline ctx = Some deadline -> (now env <= deadline)%Z) ->
  (forall req, dialAnswer env req = Some f) ->
  fst (dial env ctx tablet w) = Some (Foreign f) /\
  fst (Ping env ctx tablet w) = Some (Foreign f) /\
  (forall (PbTablet Tablet : Type)
          (frames : list (HealthStream.StreamHealthResponse PbTablet)) ending,
     exists w',
       @HealthStream.HealthStream PbTablet Tablet env ctx tablet frames ending w
       = HealthStream.Failed (Foreign f) w') /\
  (forall (LoggerEvent : Type) (events : list LoggerEvent) ending,
     exists w',
       Backup.Backup env ctx tablet events ending w
       = Backup.Failed (Foreign f) w') /\
  (forall name,
     fst (rpcCallTablet env ctx tablet name w)
     = Some (errorString ("RPC error for " ++ Alias tablet ++ ": " ++ foreign_Error f))) /\
  IsTimeoutError (fst (dial env ctx tablet w)) = false /\
  (forall name, IsTimeoutError (fst (rpcCallTablet env ctx tablet name w)) = false).
Proof.
  intros L D. pose proof (guard_live env ctx L) as G.
  assert (Hdial : fst (dial env ctx tablet w) = Some (Foreign f)).
  { unfold dial. rewrite G. run_world.
    destruct (connectTimeoutOf env ctx =? 0)%Z; simpl; rewrite D; reflexivity. }
  assert (Hrpc : forall name,
     fst (rpcCallTablet env ctx tablet name w)
     = Some (errorString ("RPC error for " ++ Alias tablet ++ ": " ++ foreign_Error f))).
  { intros name. now rewrite (rpcCallTablet_unconnected env ctx tablet name w f G (D _)). }
  repeat split.
  - exact Hdial.
  - unfold Ping, bind. destruct (dial env ctx tablet w) as [e w']. simpl in Hdial.
    rewrite Hdial. reflexivity.
  - intros. unfold HealthStream.HealthStream.
    destruct (dial env ctx tablet w) as [e w']. simpl in Hdial. rewrite Hdial.
    now exists w'.
  - intros. unfold Backup.Backup. rewrite G. run_world. rewrite D. eexists. reflexivity.
  - exact Hrpc.
  - now rewrite Hdial.
  - intros name. now rewrite Hrpc.
Qed.

Lemma connect_failure_surfacing_witness :
  let refused := opaque "connection refused" in
  let env := sampleEnv 0%Z (Some refused) (ctxDone Canceled) in
  fst (dial env background sampleTablet emptyWorld) = Some (Foreign refused) /\
  fst (rpcCallTablet env background sampleTablet "Ping" emptyWorld)
  = Some (errorString "RPC error for cell-0000000001: connection refused").
Proof.
  intros refused env.
  destruct (connect_failure_surfacing env background sampleTablet emptyWorld refused)
    as (Hd & _ & _ & _ & Hr & _).
  - intros d E. discriminate E.
  - intros req. reflexivity.
  - split; [exact Hd | exact (Hr "Ping")].
Defined.

(** ** What error messages carry *)

(** C7, as stated, fails on the remote-error path of [rpcCallTablet]: the
    error is not of the [timeoutError] kind and its message names the
    endpoint and the remote message, but not the operation. *)
Lemma remote_error_omits_operation_name :
  let env := sampleEnv 0%Z None (callDone (Some (opaque "boom")) "") in
  exists e,
    fst (rpcCallTablet env background sampleTablet "PromoteSlave" emptyWorld) = Some e /\
    IsTimeoutError (Some e) = false /\
    Str.contains "cell-0000000001" (Error e) = true /\
    Str.contains "PromoteSlave" (Error e) = false.
Proof.
  exists (errorString "remote error for cell-0000000001: boom").
  repeat split.
Qed.

(** C7, amended: every error [rpcCallTablet] returns carries the endpoint
    alias in its message.  It is either of the [timeoutError] kind, or the
    "interrupted" error, and in both cases the message also carries the
    operation name; or it is the "RPC error" built from a dial failure or the
    "remote error" built from the remote call's error, whose messages carry
    the alias and the underlying message. *)
Theorem rpcCallTablet_error_annotations
    (env : Env) (ctx : Context) (tablet : TabletInfo) (name : string)
    (w : World) (e : error) :
  fst (rpcCallTablet env ctx tablet name w) = Some e ->
  Str.contains (Alias tablet) (Error e) = true /\
  ( (IsTimeoutError (Some e) = true /\ Str.contains name (Error e) = true)
    \/ (e = errorString
             ("interrupted waiting for TabletManager." ++ name ++ " to " ++ Alias tablet)
        /\ Str.contains name (Error e) = true)
    \/ (exists f,
          dialAnswer env (bsonrpc_DialHTTP "tcp" (Addr tablet) (connectTimeoutOf env ctx))
          = Some f /\
          e = errorString ("RPC error for " ++ Alias tablet ++ ": " ++ foreign_Error f) /\
          Str.contains (foreign_Error f) (Error e) = true)
    \/ (exists f result,
          waitAnswer env = callDone (Some f) result /\
          e = errorString ("remote error for " ++ Alias tablet ++ ": " ++ foreign_Error f) /\
          Str.contains (foreign_Error f) (Error e) = true) ).
Proof.
  destruct (isSome (Deadline ctx) && (connectTimeoutOf env ctx <? 0)%Z) eqn:G.
  - rewrite (rpcCallTablet_expired env ctx tablet name w G). cbn [fst].
    intros [= <-]. cbn [Error].
    split; [find_in_message|]. left. split; [reflexivity | find_in_message].
  - destruct (dialAnswer env
                (bsonrpc_DialHTTP "tcp" (Addr tablet) (connectTimeoutOf env ctx)))
      as [f|] eqn:D.
    + rewrite (rpcCallTablet_unconnected env ctx tablet name w f G D). cbn [fst].
      intros [= <-]. cbn [Error]. split; [find_in_message|].
      right. right. left. exists f. repeat split. find_in_message.
    + rewrite (rpcCallTablet_connected env ctx tablet name w G D). cbn [fst].
      destruct (waitAnswer env) as [[|] | [f|] result]; cbn [ctxErr_eqb];
        try discriminate; intros [= <-]; cbn [Error]; (split; [find_in_message|]).
      * right. left. split; [reflexivity | find_in_message].
      * left. split; [reflexivity | find_in_message].
      * right. right. right. exists f, result. repeat split. find_in_message.
Qed.

Lemma rpcCallTablet_error_annotations_witness :
  let env := sampleEnv 0%Z None (callDone (Some (opaque "boom")) "") in
  Str.contains (Alias sampleTablet) "remote error for cell-0000000001: boom" = true.
Proof.
  intros env.
  exact (proj1 (rpcCallTablet_error_annotations env background sampleTablet
                  "PromoteSlave" emptyWorld
                  (errorString "remote error for cell-0000000001: boom") eq_refl)).
Defined.

(** ** A deadline that is exactly now *)

(** C10: when the deadline minus the current time is exactly zero, the guard
    does not fire; [dial] invokes [grpc.Dial] without a timeout option and
    [rpcCallTablet] invokes [bsonrpc.DialHTTP] with a zero connect timeout,
    and each then behaves exactly as under a context without deadline. *)
Theorem zero_connect_timeout_dials_without_timeout
    (env : Env) (ctx : Context) (tablet : TabletInfo)
    (deadline : Time.Time) (w : World) :
  Deadline ctx = Some deadline ->
  Time.Sub deadline (now env) = 0%Z ->
  connectTimeoutOf env ctx = 0%Z /\
  dial env ctx tablet w = dial env background tablet w /\
  dialLog (snd (dial env ctx tablet w))
  = (dialLog w ++ [grpc_Dial (Addr tablet) true None])%list /\
  IsTimeoutError (fst (dial env ctx tablet w)) = false /\
  (forall name,
     rpcCallTablet env ctx tablet name w = rpcCallTablet env background tablet name w /\
     dialLog (snd (rpcCallTablet env ctx tablet name w))
     = (dialLog w ++ [bsonrpc_DialHTTP "tcp" (Addr tablet) 0%Z])%list).
Proof.
  intros Hd Hz.
  assert (C : connectTimeoutOf env ctx = 0%Z).
  { unfold connectTimeoutOf. now rewrite Hd. }
  assert (Hdial : dial env ctx tablet w
                  = (option_map Foreign (dialAnswer env (grpc_Dial (Addr tablet) true None)),
                     mkWorld (dialLog w ++ [grpc_Dial (Addr tablet) true None])
                             (issued w) (connCloses w) (reply w))).
  { unfold dial. rewrite C, Hd. run_world.
    destruct (dialAnswer env (grpc_Dial (Addr tablet) true None)); reflexivity. }
  repeat split.
  - exact C.
  - rewrite Hdial. unfold dial. run_world.
    destruct (dialAnswer env (grpc_Dial (Addr tablet) true None)); reflexivity.
  - now rewrite Hdial.
  - rewrite Hdial. simpl.
    destruct (dialAnswer env (grpc_Dial (Addr tablet) true None)); reflexivity.
  - unfold rpcCallTablet. rewrite C, Hd. reflexivity.
  - unfold rpcCallTablet. rewrite C, Hd. run_world.
    destruct (dialAnswer env (bsonrpc_DialHTTP "tcp" (Addr tablet) 0%Z)) as [f|];
      [reflexivity|].
    destruct (waitAnswer env) as [cause | [f|] result]; reflexivity.
Qed.

Lemma zero_connect_timeout_dials_without_timeout_witness :
  let env := sampleEnv 100%Z None (callDone None "ok") in
  dial env (withDeadline 100%Z) sampleTablet emptyWorld
  = dial env background sampleTablet emptyWorld /\
  dialLog (snd (dial env (withDeadline 100%Z) sampleTablet emptyWorld))
  = [grpc_Dial "host:15999" true None].
Proof.
  intros env.
  destruct (zero_connect_timeout_dials_without_timeout env (withDeadline 100%Z)
              sampleTablet 100%Z emptyWorld eq_refl eq_refl) as (_ & E & L & _).
  split; [exact E | exact L].
Defined.

(** ** Schedules *)

Section RunFacts.

Context {State action : Type}.
Variable step : action -> State -> option State.

Lemma run_app (sched1 sched2 : list action) (s : State) :
  run step (sched1 ++ sched2) s = run step sched2 (run step sched1 s).
Proof. revert s; induction sched1 as [|a rest IH]; intros s; simpl; auto. Qed.

(** A property kept by every enabled step is kept by every schedule. *)
Lemma run_invariant (P : State -> Prop) :
  (forall a s s', P s -> step a s = Some s' -> P s') ->
  forall sched s, P s -> P (run step sched s).
Proof.
  intros Hstep sched. induction sched as [|a rest IH]; intros s Hs; simpl; auto.
  apply IH. unfold attempt. destruct (step a s) eqn:E; eauto.
Qed.

Lemma firstEnabled_none (l : list action) (s : State) :
  firstEnabled step l s = None -> forall a, In a l -> step a s = None.
Proof.
  induction l as [|b rest IH]; simpl; intros H a Ha; [contradiction|].
  destruct (step b s) eqn:E; [discriminate|].
  destruct Ha as [<-|Ha]; auto.
Qed.

Lemma firstEnabled_some (l : list action) (s s' : State) (a : action) :
  firstEnabled step l s = Some (a, s') -> In a l /\ step a s = Some s'.
Proof.
  induction l as [|b rest IH]; simpl; intros H; [discriminate|].
  destruct (step b s) eqn:E.
  - injection H as <- <-. auto.
  - destruct (IH H). auto.
Qed.

Lemma rotate_In (n : nat) (l : list action) (a : action) :
  In a (rotate n l) <-> In a l.
Proof.
  unfold rotate. rewrite in_app_iff.
  pose proof (firstn_skipn (n mod List.length l) l) as E.
  split; intros H.
  - rewrite <- E. apply in_or_app. tauto.
  - rewrite <- E in H. apply in_app_or in H. tauto.
Qed.

Variable progress : list action.

(** A property kept by the steps of [progress] is kept by the scheduler. *)
Lemma drive_preserves (P : State -> Prop) :
  (forall a s s', In a progress -> P s -> step a s = Some s' -> P s') ->
  forall pref fuel i s, P s -> P (run step (drive step progress pref fuel i s) s).
Proof.
  intros Hstep pref fuel. induction fuel as [|n IH]; intros i s Hs; simpl; auto.
  destruct (firstEnabled step (rotate (pref i) progress) s) as [[b s']|] eqn:F;
    simpl; auto.
  apply firstEnabled_some in F as [Hb E]. apply rotate_In in Hb.
  unfold attempt. rewrite E. apply IH. eauto.
Qed.

Variable size : State -> nat.
Hypothesis size_decreases :
  forall a s s', In a progress -> step a s = Some s' -> size s' < size s.

(** With fuel for [size s] steps the scheduler stops only where no action of
    [progress] is enabled. *)
Lemma drive_quiescent (pref : nat -> nat) (fuel i : nat) (s : State) :
  size s <= fuel ->
  forall a, In a progress ->
    step a (run step (drive step progress pref fuel i s) s) = None.
Proof.
  revert i s. induction fuel as [|n IH]; intros i s Hle a Ha; simpl.
  - destruct (step a s) as [s'|] eqn:E; [|reflexivity].
    pose proof (size_decreases a s s' Ha E). lia.
  - destruct (firstEnabled step (rotate (pref i) progress) s) as [[b s']|] eqn:F.
    + apply firstEnabled_some in F as [Hb Hs]. apply rotate_In in Hb.
      simpl. unfold attempt. rewrite Hs. apply IH; [|exact Ha].
      pose proof (size_decreases b s s' Hb Hs). lia.
    + simpl. apply (firstEnabled_none _ _ F). now apply rotate_In.
Qed.

End RunFacts.

(** ** [HealthStream]: invariant and progress *)

Section HealthStreamFacts.

Context {PbTablet Tablet : Type}.
Variable ProtoToTablet : PbTablet -> Tablet.

Local Abbreviation hstep := (HealthStream.step ProtoToTablet).
Local Abbreviation hrun := (run (HealthStream.step ProtoToTablet)).
Local Abbreviation HInv := (HealthStream.Invariant ProtoToTablet).

Lemma HealthStream_start_inv (w : World)
    (frames : list (HealthStream.StreamHealthResponse PbTablet)) (ending : foreign) :
  HInv w frames ending (HealthStream.start w frames ending).
Proof.
  constructor; simpl; try reflexivity; try discriminate.
  destruct w; simpl. now rewrite Nat.add_0_r.
Qed.

Lemma HealthStream_step_inv (w0 : World)
    (frames : list (HealthStream.StreamHealthResponse PbTablet)) (ending : foreign)
    (a : HealthStream.action) (s s' : HealthStream.State PbTablet Tablet) :
  HInv w0 frames ending s -> hstep a s = Some s' -> HInv w0 frames ending s'.
Proof.
  intros [Ho Hc Hcl Hd Hs Hf He Hw] H.
  destruct s as [w sv se t ls fe cs sc rs]; simpl in *.
  assert (Hsaw : forall P : Prop, sc = true -> t <> HealthStream.Returned -> P).
  { intros P E N. destruct (Hs E). contradiction. }
  destruct a; simpl in H.
  - destruct t as [|r| |].
    + destruct sv as [|shr rest]; injection H as <-; constructor; simpl; auto;
        try discriminate;
        try (intros E; apply (Hsaw _ E); discriminate).
      subst se fe. destruct (is_EOF ending); reflexivity.
    + unfold Chan.send in H. destruct (List.length (Chan.buf ls) <? Chan.cap ls)%nat;
        [|discriminate]. injection H as <-; constructor; simpl; auto;
        try discriminate; try (intros E; apply (Hsaw _ E); discriminate).
      rewrite <- Ho. simpl. now rewrite <- !app_assoc.
    + injection H as <-; constructor; simpl; auto.
      intros E. apply (Hsaw _ E). discriminate.
    + discriminate.
  - destruct sc; [discriminate|]. unfold Chan.recv in H.
    destruct (Chan.buf ls) as [|r rest] eqn:B.
    + destruct (0 <? Chan.closes ls)%nat eqn:C; [|discriminate].
      injection H as <-; constructor; simpl; rewrite ?B; auto.
      intros _. split; [|reflexivity].
      apply Nat.ltb_lt in C. destruct t; simpl in Hcl; try lia. reflexivity.
    + injection H as <-; constructor; simpl; auto; try discriminate.
      rewrite <- Ho. now rewrite <- !app_assoc.
  - injection H as <-; constructor; simpl; auto.
    rewrite Hw. f_equal. rewrite length_app. simpl. lia.
  - destruct t as [|r| |]; try discriminate. destruct sv; [|discriminate].
    injection H as <-; constructor; simpl; auto;
      try (intros E; apply (Hsaw _ E); discriminate).
    subst se fe. destruct (is_EOF ending); reflexivity.
Qed.

Lemma HealthStream_run_inv (w0 : World)
    (frames : list (HealthStream.StreamHealthResponse PbTablet)) (ending : foreign)
    (sched : list HealthStream.action) (s : HealthStream.State PbTablet Tablet) :
  HInv w0 frames ending s -> HInv w0 frames ending (hrun sched s).
Proof.
  apply (run_invariant hstep (HInv w0 frames ending)).
  intros a s1 s2 I E. exact (HealthStream_step_inv _ _ _ a s1 s2 I E).
Qed.

Lemma HealthStream_size_decreases (a : HealthStream.action)
    (s s' : HealthStream.State PbTablet Tablet) :
  In a HealthStream.progress -> hstep a s = Some s' ->
  HealthStream.measure s' < HealthStream.measure s.
Proof.
  intros Ha H. destruct s as [w sv se t ls fe cs sc rs].
  destruct Ha as [<-|[<-|[]]]; unfold HealthStream.measure; simpl in *.
  - destruct t as [|r| |]; [destruct sv as [|shr rest] | | | discriminate].
    + injection H as <-. simpl. lia.
    + injection H as <-. simpl. lia.
    + unfold Chan.send in H.
      destruct (List.length (Chan.buf ls) <? Chan.cap ls)%nat; [|discriminate].
      injection H as <-. simpl. rewrite length_app. simpl. lia.
    + injection H as <-. simpl. lia.
  - destruct sc; [discriminate|]. unfold Chan.recv in H.
    destruct (Chan.buf ls) as [|r rest] eqn:B.
    + destruct (0 <? Chan.closes ls)%nat; [|discriminate].
      injection H as <-. simpl. rewrite B. simpl. lia.
    + injection H as <-. simpl. lia.
Qed.

(** Where neither the goroutine nor the caller can move, the caller has seen
    the channel closed: the machine has no deadlock short of that. *)
Lemma HealthStream_quiescent (w0 : World)
    (frames : list (HealthStream.StreamHealthResponse PbTablet)) (ending : foreign)
    (s : HealthStream.State PbTablet Tablet) :
  HInv w0 frames ending s ->
  (forall a, In a HealthStream.progress -> hstep a s = None) ->
  HealthStream.sawClose s = true.
Proof.
  intros [Ho Hc Hcl Hd Hs Hf He Hw] Q.
  pose proof (Q HealthStream.Task (or_introl eq_refl)) as QT.
  pose proof (Q HealthStream.Consume (or_intror (or_introl eq_refl))) as QC.
  destruct s as [w sv se t ls fe cs sc rs]; simpl in *.
  destruct sc; [reflexivity|]. exfalso.
  unfold Chan.recv in QC. destruct (Chan.buf ls) as [|r rest] eqn:B; [|discriminate].
  destruct (0 <? Chan.closes ls)%nat eqn:C; [discriminate|].
  apply Nat.ltb_ge in C.
  destruct t as [|r| |]; simpl in *.
  - destruct sv; discriminate.
  - unfold Chan.send in QT. rewrite B, Hc in QT. discriminate.
  - discriminate.
  - lia.
Qed.

(** What the goroutine sends, field by field. *)
Lemma HealthStream_convert_fields
    (frames : list (HealthStream.StreamHealthResponse PbTablet)) :
  map (HealthStream.convert ProtoToTablet) frames
  = map (fun shr =>
           HealthStream.mkReply
             (ProtoToTablet (HealthStream.shr_Tablet shr))
             (HealthStream.shr_BinlogPlayerMapSize shr)
             (HealthStream.shr_HealthError shr)
             (HealthStream.shr_ReplicationDelay shr)) frames.
Proof. apply map_ext. intros shr. reflexivity. Qed.

(** Once the caller has seen the channel closed, it holds every frame. *)
Lemma HealthStream_drained (w0 : World)
    (frames : list (HealthStream.StreamHealthResponse PbTablet)) (ending : foreign)
    (s : HealthStream.State PbTablet Tablet) :
  HInv w0 frames ending s ->
  HealthStream.sawClose s = true ->
  HealthStream.consumed s = map (HealthStream.convert ProtoToTablet) frames /\
  Chan.closes (HealthStream.logstream s) = 1 /\
  HealthStream.finalErr s = (if is_EOF ending then None else Some (Foreign ending)).
Proof.
  intros [Ho Hc Hcl Hd Hs Hf He Hw] E. destruct (Hs E) as [T B].
  rewrite T in *. rewrite B, (Hd eq_refl) in Ho. simpl in Ho.
  rewrite app_nil_r in Ho. auto.
Qed.

(** After the goroutine has returned, a step changes neither [finalErr] nor
    the goroutine; only the ErrFunc adds a result, namely [finalErr]. *)
Lemma HealthStream_attempt_after_return (a : HealthStream.action)
    (s : HealthStream.State PbTablet Tablet) :
  HealthStream.task s = HealthStream.Returned ->
  HealthStream.task (attempt hstep a s) = HealthStream.Returned /\
  HealthStream.finalErr (attempt hstep a s) = HealthStream.finalErr s /\
  HealthStream.results (attempt hstep a s)
  = (HealthStream.results s
       ++ if HealthStream.isErrFunc a then [HealthStream.finalErr s] else [])%list.
Proof.
  intros T. destruct s as [w sv se t ls fe cs sc rs]; simpl in *. subst t.
  unfold attempt. destruct a; simpl; rewrite ?app_nil_r; auto.
  destruct sc; simpl; rewrite ?app_nil_r; auto.
  destruct (Chan.recv ls) as [[[r|] c]|]; simpl; rewrite ?app_nil_r; auto.
Qed.

Lemma HealthStream_run_after_return (more : list HealthStream.action)
    (s : HealthStream.State PbTablet Tablet) :
  HealthStream.task s = HealthStream.Returned ->
  HealthStream.finalErr (hrun more s) = HealthStream.finalErr s /\
  HealthStream.results (hrun more s)
  = (HealthStream.results s
       ++ repeat (HealthStream.finalErr s)
            (List.length (filter HealthStream.isErrFunc more)))%list.
Proof.
  revert s. induction more as [|a rest IH]; intros s T; simpl.
  - now rewrite app_nil_r.
  - destruct (HealthStream_attempt_after_return a s T) as (T' & F' & R').
    destruct (IH _ T') as (F & R). rewrite F, R, F', R'. split; [reflexivity|].
    rewrite <- app_assoc. f_equal. destruct (HealthStream.isErrFunc a); reflexivity.
Qed.

(** Every ErrFunc in a schedule adds one result; nothing else does. *)
Lemma HealthStream_results_count (sched : list HealthStream.action)
    (s : HealthStream.State PbTablet Tablet) :
  List.length (HealthStream.results (hrun sched s))
  = List.length (HealthStream.results s)
    + List.length (filter HealthStream.isErrFunc sched).
Proof.
  revert s. induction sched as [|a rest IH]; intros s; simpl; [lia|].
  rewrite IH. clear IH. unfold attempt.
  destruct s as [w sv se t ls fe cs sc rs].
  destruct a; simpl.
  - destruct t as [|r| |]; [destruct sv | destruct (Chan.send r ls) | |]; simpl; lia.
  - destruct sc; simpl; [lia|].
    destruct (Chan.recv ls) as [[[r|] c]|]; simpl; lia.
  - rewrite length_app. simpl. lia.
  - destruct t as [|r| |]; try destruct sv; simpl; lia.
Qed.

End HealthStreamFacts.

(** ** [Backup]: invariant and progress *)

Section BackupFacts.

Context {LoggerEvent : Type}.

Local Abbreviation bstep := (@Backup.step LoggerEvent).
Local Abbreviation brun := (run (@Backup.step LoggerEvent)).

Lemma Backup_start_inv (w : World) (events : list LoggerEvent) (ending : option foreign) :
  Backup.Invariant w events ending (Backup.start w events ending).
Proof.
  constructor; simpl; try reflexivity; try discriminate.
  destruct w; simpl. now rewrite Nat.add_0_r.
Qed.

Lemma Backup_step_inv (w0 : World) (events : list LoggerEvent) (ending : option foreign)
    (a : Backup.action) (s s' : Backup.State LoggerEvent) :
  Backup.Invariant w0 events ending s -> bstep a s = Some s' ->
  Backup.Invariant w0 events ending s'.
Proof.
  intros [Ho Hc Hrc Hcl Hw Hi He Hr Hn Hs] H.
  destruct s as [w cx pd re rs ce t ls it cs sc res]; simpl in *.
  assert (Hsaw : forall P : Prop, sc = true -> t <> Backup.Returned -> P).
  { intros P E N. destruct (Hs E). contradiction. }
  assert (Hint : forall P : Prop, it = true -> t <> Backup.Returned -> P).
  { intros P E N. destruct (Hi E). contradiction. }
  destruct a; simpl in H.
  - (* Cancel *)
    destruct cx; [discriminate|]. injection H as <-; constructor; simpl; auto.
    intros E. destruct (Hi E). split; [assumption | discriminate].
  - (* Deliver *)
    unfold Chan.closed in *. destruct (0 <? Chan.closes rs)%nat eqn:C; [discriminate|].
    destruct pd as [|ev rest].
    + injection H as <-; constructor; simpl; auto.
      * intros T I. destruct (He T I). discriminate.
    + unfold Chan.send in H.
      destruct (List.length (Chan.buf rs) <? Chan.cap rs)%nat; [|discriminate].
      injection H as <-; constructor; simpl; auto.
      * rewrite <- Ho. now rewrite <- !app_assoc.
      * intros T I. destruct (He T I). discriminate.
      * unfold Chan.closed. simpl. rewrite C. discriminate.
  - (* TaskDone *)
    destruct t; try discriminate. destruct cx as [cause|]; [|discriminate].
    unfold Backup.finish in H. simpl in H.
    injection H as <-; constructor; simpl; auto; try discriminate.
    + rewrite Hw. simpl. f_equal. lia.
    + intros _. split; [reflexivity | discriminate].
    + intros E. apply (Hsaw _ E). discriminate.
  - (* TaskRecv *)
    destruct t; try discriminate. unfold Chan.recv in H.
    destruct (Chan.buf rs) as [|ssr rest] eqn:B.
    + destruct (0 <? Chan.closes rs)%nat eqn:C; [|discriminate].
      unfold Backup.finish in H. simpl in H.
      injection H as <-; constructor; simpl; rewrite ?B; auto; try discriminate.
      * rewrite Hw. simpl. f_equal. lia.
      * intros E. apply (Hint _ E). discriminate.
      * intros E. apply (Hsaw _ E). discriminate.
    + injection H as <-; constructor; simpl; auto; try discriminate.
      * intros E. apply (Hint _ E). discriminate.
      * intros E. apply (Hsaw _ E). discriminate.
  - (* TaskSend *)
    destruct t as [|ssr|]; try discriminate. unfold Chan.send in H.
    destruct (List.length (Chan.buf ls) <? Chan.cap ls)%nat; [|discriminate].
    injection H as <-; constructor; simpl; auto; try discriminate.
    + rewrite <- Ho. simpl. now rewrite <- !app_assoc.
    + intros E. apply (Hint _ E). discriminate.
    + intros E. apply (Hsaw _ E). discriminate.
  - (* Consume *)
    destruct sc; [discriminate|]. unfold Chan.recv in H.
    destruct (Chan.buf ls) as [|r rest] eqn:B.
    + destruct (0 <? Chan.closes ls)%nat eqn:C; [|discriminate].
      injection H as <-; constructor; simpl; rewrite ?B; auto.
      intros _. split; [|reflexivity].
      apply Nat.ltb_lt in C. destruct t; simpl in Hcl; try lia. reflexivity.
    + injection H as <-; constructor; simpl; auto; try discriminate.
      rewrite <- Ho. now rewrite <- !app_assoc.
  - (* ErrFunc *)
    injection H as <-; constructor; simpl; auto.
Qed.

Lemma Backup_run_inv (w0 : World) (events : list LoggerEvent) (ending : option foreign)
    (sched : list Backup.action) (s : Backup.State LoggerEvent) :
  Backup.Invariant w0 events ending s ->
  Backup.Invariant w0 events ending (brun sched s).
Proof.
  apply (run_invariant bstep (Backup.Invariant w0 events ending)).
  intros a s1 s2 I E. exact (Backup_step_inv _ _ _ a s1 s2 I E).
Qed.

Lemma Backup_size_decreases (a : Backup.action) (s s' : Backup.State LoggerEvent) :
  In a Backup.progress -> bstep a s = Some s' ->
  Backup.measure s' < Backup.measure s.
Proof.
  intros Ha H. destruct s as [w cx pd re rs ce t ls it cs sc res].
  destruct Ha as [<-|[<-|[<-|[<-|[]]]]];
    unfold Backup.measure, Chan.closed; simpl in *.
  - unfold Chan.closed in H. destruct (0 <? Chan.closes rs)%nat eqn:C; [discriminate|].
    destruct pd as [|ev rest].
    + injection H as <-. simpl. lia.
    + unfold Chan.send in H.
      destruct (List.length (Chan.buf rs) <? Chan.cap rs)%nat; [|discriminate].
      injection H as <-. simpl. rewrite C, length_app. simpl. lia.
  - destruct t; try discriminate. unfold Chan.recv in H.
    destruct (Chan.buf rs) as [|ssr rest] eqn:B.
    + destruct (0 <? Chan.closes rs)%nat eqn:C; [|discriminate].
      injection H as <-. simpl. rewrite B, C. simpl. lia.
    + injection H as <-. simpl. lia.
  - destruct t as [|ssr|]; try discriminate. unfold Chan.send in H.
    destruct (List.length (Chan.buf ls) <? Chan.cap ls)%nat; [|discriminate].
    injection H as <-. simpl. rewrite length_app. simpl. lia.
  - destruct sc; [discriminate|]. unfold Chan.recv in H.
    destruct (Chan.buf ls) as [|r rest] eqn:B.
    + destruct (0 <? Chan.closes ls)%nat; [|discriminate].
      injection H as <-. simpl. rewrite B. simpl. lia.
    + injection H as <-. simpl. lia.
Qed.

(** The steps of [Backup.progress] leave the context alone. *)
Lemma Backup_progress_keeps_ctx (a : Backup.action) (s s' : Backup.State LoggerEvent) :
  In a Backup.progress -> Backup.ctxErr_ s = None -> bstep a s = Some s' ->
  Backup.ctxErr_ s' = None.
Proof.
  intros Ha Hc H. destruct s as [w cx pd re rs ce t ls it cs sc res]; simpl in *.
  subst cx. destruct Ha as [<-|[<-|[<-|[<-|[]]]]]; simpl in H.
  - destruct (Chan.closed rs); [discriminate|].
    destruct pd; [|destruct (Chan.send l rs)]; try discriminate; now injection H as <-.
  - destruct t; try discriminate.
    destruct (Chan.recv rs) as [[[ssr|] c]|]; try discriminate; now injection H as <-.
  - destruct t as [|ssr|]; try discriminate.
    destruct (Chan.send ssr ls); try discriminate; now injection H as <-.
  - destruct sc; [discriminate|].
    destruct (Chan.recv ls) as [[[r|] c]|]; try discriminate; now injection H as <-.
Qed.

(** Where no action of [Backup.progress] is enabled, the caller has seen
    the channel closed. *)
Lemma Backup_quiescent (w0 : World) (events : list LoggerEvent) (ending : option foreign)
    (s : Backup.State LoggerEvent) :
  Backup.Invariant w0 events ending s ->
  (forall a, In a Backup.progress -> bstep a s = None) ->
  Backup.sawClose s = true.
Proof.
  intros [Ho Hc Hrc Hcl Hw Hi He Hr Hn Hs] Q.
  pose proof (Q Backup.Deliver (or_introl eq_refl)) as QD.
  pose proof (Q Backup.TaskRecv (or_intror (or_introl eq_refl))) as QR.
  pose proof (Q Backup.TaskSend (or_intror (or_intror (or_introl eq_refl)))) as QS.
  pose proof (Q Backup.Consume
                (or_intror (or_intror (or_intror (or_introl eq_refl))))) as QC.
  destruct s as [w cx pd re rs ce t ls it cs sc res]; simpl in *.
  destruct sc; [reflexivity|]. exfalso.
  unfold Chan.recv in QC. destruct (Chan.buf ls) as [|r rest] eqn:B; [|discriminate].
  destruct (0 <? Chan.closes ls)%nat eqn:C; [discriminate|]. apply Nat.ltb_ge in C.
  destruct t as [|ssr|]; simpl in *.
  - unfold Chan.recv in QR. destruct (Chan.buf rs) as [|x xs] eqn:BR; [|discriminate].
    unfold Chan.closed in QD.
    destruct (0 <? Chan.closes rs)%nat; [discriminate|].
    destruct pd as [|ev rest]; [discriminate|].
    unfold Chan.send in QD. rewrite BR, Hrc in QD. discriminate.
  - unfold Chan.send in QS. rewrite B, Hc in QS. discriminate.
  - lia.
Qed.

(** Once the caller of an uninterrupted stream has seen the channel closed,
    it holds every event, and the ErrFunc returns how the stream ended. *)
Lemma Backup_drained (w0 : World) (events : list LoggerEvent) (ending : option foreign)
    (s : Backup.State LoggerEvent) :
  Backup.Invariant w0 events ending s ->
  Backup.sawClose s = true ->
  Backup.interrupted s = false ->
  Backup.consumed s = events /\
  Chan.closes (Backup.logstream s) = 1 /\
  fst (Backup.errFunc s) = option_map Foreign ending.
Proof.
  intros [Ho Hc Hrc Hcl Hw Hi He Hr Hn Hs] E I. destruct (Hs E) as [T B].
  destruct (He T I) as [CR BR]. destruct (Hr CR) as [P CE].
  rewrite T in *. rewrite B, BR, P in Ho. simpl in Ho. rewrite app_nil_r in Ho.
  unfold Backup.errFunc. rewrite I, CE. simpl. auto.
Qed.

(** After the goroutine has returned, a step changes neither the goroutine
    nor what the ErrFunc returns; only the ErrFunc adds a result. *)
Lemma Backup_attempt_after_return (w0 : World) (events : list LoggerEvent)
    (ending : option foreign) (a : Backup.action) (s : Backup.State LoggerEvent) :
  Backup.Invariant w0 events ending s ->
  Backup.task s = Backup.Returned ->
  Backup.Invariant w0 events ending (attempt bstep a s) /\
  Backup.task (attempt bstep a s) = Backup.Returned /\
  fst (Backup.errFunc (attempt bstep a s)) = fst (Backup.errFunc s) /\
  Backup.results (attempt bstep a s)
  = (Backup.results s
       ++ if Backup.isErrFunc a then [fst (Backup.errFunc s)] else [])%list.
Proof.
  intros I T. split.
  { unfold attempt. destruct (bstep a s) eqn:E; [|exact I].
    exact (Backup_step_inv _ _ _ a s _ I E). }
  destruct I as [Ho Hc Hrc Hcl Hw Hi He Hr Hn Hs].
  destruct s as [w cx pd re rs ce t ls it cs sc res]; simpl in *. subst t.
  unfold attempt, Backup.errFunc. destruct a; simpl; rewrite ?app_nil_r; auto.
  - destruct cx; simpl; rewrite ?app_nil_r; auto.
  - destruct it.
    + destruct (Chan.closed rs); simpl; rewrite ?app_nil_r; auto.
      destruct pd; [|destruct (Chan.send l rs)]; simpl; rewrite ?app_nil_r; auto.
    + destruct (He eq_refl eq_refl) as [C _]. rewrite C. simpl.
      rewrite ?app_nil_r; auto.
  - destruct sc; simpl; rewrite ?app_nil_r; auto.
    destruct (Chan.recv ls) as [[[r|] c]|]; simpl; rewrite ?app_nil_r; auto.
Qed.

Lemma Backup_run_after_return (w0 : World) (events : list LoggerEvent)
    (ending : option foreign) (more : list Backup.action) (s : Backup.State LoggerEvent) :
  Backup.Invariant w0 events ending s ->
  Backup.task s = Backup.Returned ->
  fst (Backup.errFunc (brun more s)) = fst (Backup.errFunc s) /\
  Backup.results (brun more s)
  = (Backup.results s
       ++ repeat (fst (Backup.errFunc s))
            (List.length (filter Backup.isErrFunc more)))%list.
Proof.
  revert s. induction more as [|a rest IH]; intros s I T; cbn [run filter].
  - cbn [List.length repeat]. now rewrite app_nil_r.
  - destruct (Backup_attempt_after_return _ _ _ a s I T) as (I' & T' & F' & R').
    destruct (IH _ I' T') as (F & R). rewrite F, R, F', R'. split; [reflexivity|].
    rewrite <- app_assoc. f_equal. destruct (Backup.isErrFunc a); reflexivity.
Qed.

End BackupFacts.

(** ** Closing the channel and releasing the connection *)

(** C3, as stated, fails on [HealthStream]: when the stream ends the
    goroutine closes the channel and returns, and the connection has not been
    released; each call of the returned function then releases it again. *)
Lemma HealthStream_task_exit_releases_nothing :
  let step := HealthStream.step sampleConv in
  let init := HealthStream.start emptyWorld [] io_EOF in
  let exited := run step [HealthStream.Task] init in
  let twice :=
    run step [HealthStream.Task; HealthStream.ErrFunc; HealthStream.ErrFunc] init in
  HealthStream.task exited = HealthStream.Returned /\
  Chan.closes (HealthStream.logstream exited) = 1 /\
  connCloses (HealthStream.world exited) = 0 /\
  connCloses (HealthStream.world twice) = 2.
Proof. repeat split. Qed.

(** C3, amended: in both streaming calls the output channel has been closed
    exactly once when the goroutine has returned, and not before, on every
    path.  In [Backup] the goroutine releases the connection exactly once, as
    it returns.  In [HealthStream] the goroutine never releases it: the
    returned function does, once per call.  A [HealthStream] that fails to
    open its stream after a successful dial releases the connection once. *)
Theorem stream_close_and_release_counts :
  (forall (PbTablet Tablet : Type) (ProtoToTablet : PbTablet -> Tablet)
          (frames : list (HealthStream.StreamHealthResponse PbTablet))
          (ending : foreign) (w : World) (sched : list HealthStream.action),
     let s := run (HealthStream.step ProtoToTablet) sched
                  (HealthStream.start w frames ending) in
     Chan.closes (HealthStream.logstream s) = HealthStream.returned (HealthStream.task s) /\
     connCloses (HealthStream.world s)
     = connCloses w + List.length (filter HealthStream.isErrFunc sched)) /\
  (forall (LoggerEvent : Type) (events : list LoggerEvent) (ending : option foreign)
          (w : World) (sched : list Backup.action),
     let s := run Backup.step sched (Backup.start w events ending) in
     Chan.closes (Backup.logstream s) = Backup.returned (Backup.task s) /\
     connCloses (Backup.world s) = connCloses w + Backup.returned (Backup.task s)) /\
  (forall (PbTablet Tablet : Type) (env : Env) (ctx : Context) (tablet : TabletInfo)
          (frames : list (HealthStream.StreamHealthResponse PbTablet))
          (ending : foreign) (w : World) (f : foreign),
     fst (dial env ctx tablet w) = None ->
     streamAnswer env = Some f ->
     exists w',
       @HealthStream.HealthStream PbTablet Tablet env ctx tablet frames ending w
       = HealthStream.Failed (Foreign f) w' /\
       connCloses w' = S (connCloses (snd (dial env ctx tablet w)))).
Proof.
  split; [|split].
  - intros PbTablet Tablet ProtoToTablet frames ending w sched s.
    pose proof (HealthStream_run_inv ProtoToTablet w frames ending sched _
                  (HealthStream_start_inv ProtoToTablet w frames ending)) as I.
    fold s in I. destruct I as [_ _ Hcl _ _ _ _ Hw]. split; [exact Hcl|].
    rewrite Hw. simpl. unfold s. rewrite HealthStream_results_count. reflexivity.
  - intros LoggerEvent events ending w sched s.
    pose proof (Backup_run_inv w events ending sched _
                  (Backup_start_inv w events ending)) as I.
    fold s in I. destruct I as [_ _ _ Hcl Hw _ _ _ _ _]. split; [exact Hcl|].
    now rewrite Hw.
  - intros PbTablet Tablet env ctx tablet frames ending w f D A.
    unfold HealthStream.HealthStream. destruct (dial env ctx tablet w) as [e w1].
    simpl in D. subst e. simpl. rewrite A. eexists. split; reflexivity.
Qed.

Lemma stream_close_and_release_counts_witness :
  let env := mkEnv 0%Z (fun _ => None) (ctxDone Canceled) (inr "payload")
                   (Some (opaque "unavailable")) in
  exists w',
    @HealthStream.HealthStream string string env background sampleTablet
       [] io_EOF emptyWorld
    = HealthStream.Failed (Foreign (opaque "unavailable")) w' /\
    connCloses w' = 1.
Proof.
  intros env.
  destruct stream_close_and_release_counts as (_ & _ & H).
  exact (H string string env background sampleTablet [] io_EOF emptyWorld
           (opaque "unavailable") eq_refl eq_refl).
Defined.

(** ** A stream that ends cleanly *)

(** C4: when the server produces the frames [F1..Fn] and then ends the stream
    with end-of-stream, then under every interleaving of goroutine, caller and
    ErrFunc calls what the caller has read is at all times an initial part of
    [F1..Fn], in receipt order, each frame with its tablet converted by
    [topo.ProtoToTablet] and its map size, health error and replication
    delay as received; once the caller has seen the channel closed it has
    read exactly [F1..Fn], the channel was closed once, and the ErrFunc
    returns nil; and every scheduler that keeps running
    whichever of goroutine and caller can move reaches that point within
    [measure] steps.  The same holds of [Backup] when its stream ends without
    error and the context is never done. *)
Theorem clean_end_of_stream_delivers_all_frames :
  (forall (PbTablet Tablet : Type) (ProtoToTablet : PbTablet -> Tablet)
          (frames : list (HealthStream.StreamHealthResponse PbTablet)) (w : World),
     let step := HealthStream.step ProtoToTablet in
     let init := HealthStream.start w frames io_EOF in
     let expected :=
       map (fun shr =>
              HealthStream.mkReply
                (ProtoToTablet (HealthStream.shr_Tablet shr))
                (HealthStream.shr_BinlogPlayerMapSize shr)
                (HealthStream.shr_HealthError shr)
                (HealthStream.shr_ReplicationDelay shr)) frames in
     (forall sched,
        exists rest,
          expected = (HealthStream.consumed (run step sched init) ++ rest)%list) /\
     (forall sched,
        HealthStream.sawClose (run step sched init) = true ->
        HealthStream.consumed (run step sched init) = expected /\
        Chan.closes (HealthStream.logstream (run step sched init)) = 1 /\
        fst (HealthStream.errFunc (run step sched init)) = None) /\
     (forall pref,
        let s := run step (drive step HealthStream.progress pref
                             (HealthStream.measure init) 0 init) init in
        HealthStream.sawClose s = true /\
        HealthStream.consumed s = expected /\
        Chan.closes (HealthStream.logstream s) = 1 /\
        fst (HealthStream.errFunc s) = None)) /\
  (forall (LoggerEvent : Type) (events : list LoggerEvent) (w : World),
     let init := Backup.start w events None in
     (forall sched,
        exists rest,
          events = (Backup.consumed (run Backup.step sched init) ++ rest)%list) /\
     (forall sched,
        Backup.sawClose (run Backup.step sched init) = true ->
        Backup.ctxErr_ (run Backup.step sched init) = None ->
        Backup.consumed (run Backup.step sched init) = events /\
        Chan.closes (Backup.logstream (run Backup.step sched init)) = 1 /\
        fst (Backup.errFunc (run Backup.step sched init)) = None) /\
     (forall pref,
        let s := run Backup.step (drive Backup.step Backup.progress pref
                                    (Backup.measure init) 0 init) init in
        Backup.sawClose s = true /\
        Backup.consumed s = events /\
        Chan.closes (Backup.logstream s) = 1 /\
        fst (Backup.errFunc s) = None)).
Proof.
  split.
  - intros PbTablet Tablet ProtoToTablet frames w step init expected.
    pose proof (HealthStream_start_inv ProtoToTablet w frames io_EOF) as I0.
    fold init in I0.
    assert (Safe : forall s,
              HealthStream.Invariant ProtoToTablet w frames io_EOF s ->
              HealthStream.sawClose s = true ->
              HealthStream.consumed s = expected /\
              Chan.closes (HealthStream.logstream s) = 1 /\
              fst (HealthStream.errFunc s) = None).
    { intros s I E.
      destruct (HealthStream_drained ProtoToTablet w frames io_EOF s I E)
        as (C & L & F).
      repeat split; [exact C | exact L | exact F]. }
    split; [|split].
    + intros sched.
      destruct (HealthStream_run_inv ProtoToTablet w frames io_EOF sched init I0)
        as [Ho _ _ _ _ _ _ _].
      eexists. symmetry. exact Ho.
    + intros sched E. apply Safe; [|exact E].
      apply HealthStream_run_inv, I0.
    + intros pref s.
      assert (I : HealthStream.Invariant ProtoToTablet w frames io_EOF s)
        by (apply HealthStream_run_inv, I0).
      assert (E : HealthStream.sawClose s = true).
      { apply (HealthStream_quiescent ProtoToTablet w frames io_EOF s I).
        intros a Ha.
        apply (drive_quiescent step HealthStream.progress HealthStream.measure
                 (HealthStream_size_decreases ProtoToTablet)); [apply Nat.le_refl | exact Ha]. }
      split; [exact E | apply Safe; assumption].
  - intros LoggerEvent events w init.
    pose proof (Backup_start_inv w events None) as I0. fold init in I0.
    assert (Safe : forall s,
              Backup.Invariant w events None s ->
              Backup.sawClose s = true ->
              Backup.ctxErr_ s = None ->
              Backup.consumed s = events /\
              Chan.closes (Backup.logstream s) = 1 /\
              fst (Backup.errFunc s) = None).
    { intros s I E C.
      assert (N : Backup.interrupted s = false).
      { destruct (Backup.interrupted s) eqn:X; [|reflexivity].
        pose proof I as [_ _ _ _ _ Hi _ _ _ _].
        destruct (Hi X) as [_ Y]. contradiction. }
      exact (Backup_drained w events None s I E N). }
    split; [|split].
    + intros sched.
      destruct (Backup_run_inv w events None sched init I0)
        as [Ho _ _ _ _ _ _ _ _ _].
      eexists. symmetry. exact Ho.
    + intros sched E C. apply Safe; [|exact E|exact C].
      apply Backup_run_inv, I0.
    + intros pref s.
      assert (I : Backup.Invariant w events None s) by (apply Backup_run_inv, I0).
      assert (C : Backup.ctxErr_ s = None).
      { apply (drive_preserves Backup.step Backup.progress
                 (fun st => Backup.ctxErr_ st = None)); [|reflexivity].
        intros a s1 s2 Ha P H. exact (Backup_progress_keeps_ctx a s1 s2 Ha P H). }
      assert (E : Backup.sawClose s = true).
      { apply (Backup_quiescent w events None s I). intros a Ha.
        apply (drive_quiescent Backup.step Backup.progress Backup.measure
                 Backup_size_decreases); [apply Nat.le_refl | exact Ha]. }
      split; [exact E | apply Safe; assumption].
Qed.

Lemma clean_end_of_stream_delivers_all_frames_witness :
  let step := HealthStream.step sampleTopo in
  let frames := [healthFrame 1 "" 0; healthFrame 2 "replication lag" 1500;
                 healthFrame 3 "" 20] in
  let sched := (repeat HealthStream.Task 7 ++ repeat HealthStream.Consume 4)%list in
  let s := run step sched (HealthStream.start emptyWorld frames io_EOF) in
  HealthStream.sawClose s = true /\
  HealthStream.consumed s
  = [HealthStream.mkReply "topo:cell-0000000001" 1 "" 0%Z;
     HealthStream.mkReply "topo:cell-0000000001" 2 "replication lag" 1500%Z;
     HealthStream.mkReply "topo:cell-0000000001" 3 "" 20%Z] /\
  Chan.closes (HealthStream.logstream s) = 1 /\
  fst (HealthStream.errFunc s) = None.
Proof.
  intros step frames sched s.
  destruct clean_end_of_stream_delivers_all_frames as [H _].
  destruct (H string string sampleTopo frames emptyWorld) as (_ & Safe & _).
  split; [reflexivity|]. apply (Safe sched). reflexivity.
Defined.

(** ** Cancellation of a [Backup] stream *)

(** C5, as stated, fails: a cancellation that fires before the goroutine has
    seen the end of the stream need not be recorded.  Here the context is
    cancelled while the goroutine is in [logstream <- ssr]; when it is back
    at the select the end of the stream is ready as well, the select takes
    [<-rpcstream], and the call ends with [interrupted] false and the
    ErrFunc returning [c.Error]. *)
Lemma Backup_cancellation_can_go_unrecorded :
  let init := Backup.start emptyWorld ["line 1"] (Some (opaque "unexpected EOF")) in
  let s1 := run Backup.step
                [Backup.Deliver; Backup.TaskRecv; Backup.Cancel Canceled] init in
  let s := run Backup.step
               [Backup.Deliver; Backup.TaskSend; Backup.TaskRecv;
                Backup.Consume; Backup.Consume; Backup.ErrFunc] s1 in
  (Backup.ctxErr_ s1 = Some Canceled /\
   Backup.task s1 = Backup.Sending "line 1" /\
   Chan.closed (Backup.rpcstream s1) = false) /\
  (Chan.closes (Backup.logstream s) = 1 /\
   Backup.sawClose s = true /\
   Backup.interrupted s = false /\
   Backup.results s = [Some (Foreign (opaque "unexpected EOF"))]).
Proof. repeat split. Qed.

(** C5, amended: when the select of the [Backup] goroutine takes the
    [ctx.Done()] branch, which it can only do while it has not yet seen the
    end of the stream, the output channel is closed and the connection
    released, both exactly once, and [interrupted] is set; whatever happens
    afterwards, the ErrFunc returns the interruption error and not
    [c.Error]. *)
Theorem Backup_cancellation_interrupts
    (LoggerEvent : Type) (events : list LoggerEvent) (ending : option foreign)
    (w : World) (before after : list Backup.action) (s2 : Backup.State LoggerEvent) :
  let s1 := run Backup.step before (Backup.start w events ending) in
  let s3 := run Backup.step after s2 in
  Backup.step Backup.TaskDone s1 = Some s2 ->
  (Backup.task s1 = Backup.Selecting /\ Backup.ctxErr_ s1 <> None) /\
  (Chan.closes (Backup.logstream s1) = 0 /\
   connCloses (Backup.world s1) = connCloses w) /\
  (Chan.closes (Backup.logstream s3) = 1 /\
   connCloses (Backup.world s3) = S (connCloses w) /\
   Backup.interrupted s3 = true /\
   fst (Backup.errFunc s3)
   = Some (errorString "TabletManager.Backup interrupted by context") /\
   fst (Backup.errFunc s3) <> option_map Foreign (Backup.cError s3)).
Proof.
  intros s1 s3 H.
  assert (I1 : Backup.Invariant w events ending s1)
    by (apply Backup_run_inv, Backup_start_inv).
  assert (I2 : Backup.Invariant w events ending s2)
    by (exact (Backup_step_inv _ _ _ _ s1 s2 I1 H)).
  assert (Pre : Backup.task s1 = Backup.Selecting /\ Backup.ctxErr_ s1 <> None
                /\ s2 = Backup.finish true s1).
  { simpl in H. destruct (Backup.task s1); try discriminate.
    destruct (Backup.ctxErr_ s1); [|discriminate].
    injection H as <-. repeat split. discriminate. }
  destruct Pre as (T1 & C1 & E2).
  assert (T2 : Backup.task s2 = Backup.Returned) by (now subst s2).
  assert (F2 : fst (Backup.errFunc s2) = Some Backup.interruptedError)
    by (now subst s2).
  destruct (Backup_run_after_return w events ending after s2 I2 T2) as [F3 _].
  fold s3 in F3. rewrite F2 in F3.
  assert (I3 : Backup.Invariant w events ending s3) by (apply Backup_run_inv, I2).
  assert (N3 : Backup.interrupted s3 = true).
  { unfold Backup.errFunc in F3. simpl in F3.
    destruct (Backup.interrupted s3); [reflexivity|].
    destruct (Backup.cError s3); discriminate. }
  pose proof I1 as [_ _ _ Hcl1 Hw1 _ _ _ _ _].
  pose proof I3 as [_ _ _ Hcl3 Hw3 Hi3 _ _ _ _].
  destruct (Hi3 N3) as [T3 _]. rewrite T1 in *. rewrite T3 in *.
  repeat split; auto.
  - rewrite Hw1. simpl. lia.
  - rewrite Hw3. simpl. lia.
  - rewrite F3. destruct (Backup.cError s3); discriminate.
Qed.

Lemma Backup_cancellation_interrupts_witness :
  let init := Backup.start emptyWorld ["line 1"; "line 2"] None in
  let before := [Backup.Deliver; Backup.Cancel Canceled] in
  let after := [Backup.Deliver; Backup.Consume; Backup.ErrFunc] in
  let s3 := run Backup.step (before ++ Backup.TaskDone :: after)%list init in
  Chan.closes (Backup.logstream s3) = 1 /\
  connCloses (Backup.world s3) = 1 /\
  Backup.results s3 = [Some (errorString "TabletManager.Backup interrupted by context")].
Proof.
  intros init before after s3.
  pose proof (Backup_cancellation_interrupts string ["line 1"; "line 2"] None
                emptyWorld before after
                (Backup.finish true (run Backup.step before init)) eq_refl)
    as (_ & _ & C & R & _).
  split; [exact C | split; [exact R | reflexivity]].
Defined.

(** ** Which errors are timeouts *)

(** C8, as stated, fails on [Backup]: a context that ends by deadline expiry
    while the stream is running makes the ErrFunc return the interruption
    error, for which [IsTimeoutError] is false. *)
Lemma Backup_deadline_expiry_is_not_a_timeout :
  let env := sampleEnv 100%Z None (ctxDone Canceled) in
  exists s0,
    Backup.Backup env (withDeadline 200%Z) sampleTablet ["line 1"; "line 2"] None
                  emptyWorld
    = Backup.Streaming s0 /\
    let s := run Backup.step
                 [Backup.Deliver; Backup.Cancel DeadlineExceeded; Backup.TaskDone;
                  Backup.Consume; Backup.ErrFunc] s0 in
    Backup.ctxErr_ s = Some DeadlineExceeded /\
    exists e, Backup.results s = [Some e] /\ IsTimeoutError (Some e) = false.
Proof.
  eexists. split; [reflexivity|]. split; [reflexivity|].
  eexists. split; reflexivity.
Qed.

(** C8, amended: [IsTimeoutError] is true exactly on values of the
    [timeoutError] kind.  It is true of the error returned for a deadline
    already expired ([dial], [rpcCallTablet], [Backup]) and of the one
    [rpcCallTablet] returns when its wait ends by deadline expiry.  It is
    false of [rpcCallTablet]'s interrupted, remote and dial errors, of
    whatever [dial] returns once the guard has passed, and of everything the
    ErrFunc of [Backup] returns, the interruption error included, whatever
    ended the context. *)
Theorem IsTimeoutError_classification :
  (forall err,
     IsTimeoutError err = true <-> exists inner, err = Some (timeoutError inner)) /\
  (forall env ctx tablet deadline w,
     Deadline ctx = Some deadline -> (deadline < now env)%Z ->
     IsTimeoutError (fst (dial env ctx tablet w)) = true /\
     (forall name, IsTimeoutError (fst (rpcCallTablet env ctx tablet name w)) = true) /\
     (forall (LoggerEvent : Type) (events : list LoggerEvent) ending,
        exists e w',
          Backup.Backup env ctx tablet events ending w = Backup.Failed e w' /\
          IsTimeoutError (Some e) = true)) /\
  (forall env ctx tablet name w,
     (forall deadline, Deadline ctx = Some deadline -> (now env <= deadline)%Z) ->
     IsTimeoutError (fst (rpcCallTablet env ctx tablet name w))
     = match dialAnswer env
               (bsonrpc_DialHTTP "tcp" (Addr tablet) (connectTimeoutOf env ctx)),
             waitAnswer env with
       | None, ctxDone DeadlineExceeded => true
       | _, _ => false
       end) /\
  (forall env ctx tablet w,
     (forall deadline, Deadline ctx = Some deadline -> (now env <= deadline)%Z) ->
     IsTimeoutError (fst (dial env ctx tablet w)) = false) /\
  (forall (LoggerEvent : Type) (s : Backup.State LoggerEvent),
     IsTimeoutError (fst (Backup.errFunc s)) = false).
Proof.
  split; [|split; [|split; [|split]]].
  - intros err. split.
    + destruct err as [[f|msg|inner]|]; simpl; try discriminate.
      intros _. now exists inner.
    + intros [inner ->]. reflexivity.
  - intros env ctx tablet deadline w Hd Hlt.
    pose proof (guard_expired env ctx deadline Hd Hlt) as G.
    split; [now rewrite (dial_expired env ctx tablet w G) | split].
    + intros name. now rewrite (rpcCallTablet_expired env ctx tablet name w G).
    + intros LoggerEvent events ending.
      rewrite (Backup_expired env ctx tablet LoggerEvent events ending w G).
      eexists. eexists. split; reflexivity.
  - intros env ctx tablet name w L. pose proof (guard_live env ctx L) as G.
    destruct (dialAnswer env
                (bsonrpc_DialHTTP "tcp" (Addr tablet) (connectTimeoutOf env ctx)))
      as [f|] eqn:D.
    + now rewrite (rpcCallTablet_unconnected env ctx tablet name w f G D).
    + rewrite (rpcCallTablet_connected env ctx tablet name w G D). cbn [fst].
      destruct (waitAnswer env) as [[|] | [f|] result]; reflexivity.
  - intros env ctx tablet w L. unfold dial. rewrite (guard_live env ctx L).
    run_world. destruct (connectTimeoutOf env ctx =? 0)%Z; simpl;
      match goal with |- context [dialAnswer env ?r] => destruct (dialAnswer env r) end;
      reflexivity.
  - intros LoggerEvent s. unfold Backup.errFunc. simpl.
    destruct (Backup.interrupted s); [reflexivity|].
    destruct (Backup.cError s); reflexivity.
Qed.

Lemma IsTimeoutError_classification_witness :
  let env := sampleEnv 100%Z None (ctxDone Canceled) in
  IsTimeoutError (fst (dial env (withDeadline 99%Z) sampleTablet emptyWorld)) = true /\
  IsTimeoutError (fst (rpcCallTablet env (withDeadline 200%Z) sampleTablet
                         "SlaveStatus" emptyWorld)) = false.
Proof.
  intros env.
  destruct IsTimeoutError_classification as (_ & Expired & Wait & _).
  split.
  - destruct (Expired env (withDeadline 99%Z) sampleTablet 99%Z emptyWorld eq_refl)
      as [H _]; [simpl; lia | exact H].
  - rewrite (Wait env (withDeadline 200%Z) sampleTablet "SlaveStatus" emptyWorld).
    + reflexivity.
    + intros d E. injection E as <-. simpl. lia.
Defined.

(** ** Calling the ErrFunc again *)

(** C9: once the output channel of a streaming call is closed, every further
    call of the returned function yields the same value, whatever else
    happens in between: the values it returns from then on are copies of the
    one it would return at that point. *)
Theorem errFunc_stable_after_close :
  (forall (PbTablet Tablet : Type) (ProtoToTablet : PbTablet -> Tablet)
          (frames : list (HealthStream.StreamHealthResponse PbTablet))
          (ending : foreign) (w : World) (sched more : list HealthStream.action),
     let step := HealthStream.step ProtoToTablet in
     let s := run step sched (HealthStream.start w frames ending) in
     Chan.closed (HealthStream.logstream s) = true ->
     fst (HealthStream.errFunc (run step more s)) = fst (HealthStream.errFunc s) /\
     HealthStream.results (run step more s)
     = (HealthStream.results s
          ++ repeat (fst (HealthStream.errFunc s))
               (List.length (filter HealthStream.isErrFunc more)))%list) /\
  (forall (LoggerEvent : Type) (events : list LoggerEvent) (ending : option foreign)
          (w : World) (sched more : list Backup.action),
     let s := run Backup.step sched (Backup.start w events ending) in
     Chan.closed (Backup.logstream s) = true ->
     fst (Backup.errFunc (run Backup.step more s)) = fst (Backup.errFunc s) /\
     Backup.results (run Backup.step more s)
     = (Backup.results s
          ++ repeat (fst (Backup.errFunc s))
               (List.length (filter Backup.isErrFunc more)))%list).
Proof.
  split.
  - intros PbTablet Tablet ProtoToTablet frames ending w sched more step s C.
    assert (I : HealthStream.Invariant ProtoToTablet w frames ending s)
      by (apply HealthStream_run_inv, HealthStream_start_inv).
    assert (T : HealthStream.task s = HealthStream.Returned).
    { destruct I as [_ _ Hcl _ _ _ _ _]. unfold Chan.closed in C.
      apply Nat.ltb_lt in C. destruct (HealthStream.task s); simpl in Hcl; try lia.
      reflexivity. }
    exact (HealthStream_run_after_return ProtoToTablet more s T).
  - intros LoggerEvent events ending w sched more s C.
    assert (I : Backup.Invariant w events ending s)
      by (apply Backup_run_inv, Backup_start_inv).
    assert (T : Backup.task s = Backup.Returned).
    { pose proof I as [_ _ _ Hcl _ _ _ _ _ _]. unfold Chan.closed in C.
      apply Nat.ltb_lt in C. destruct (Backup.task s); simpl in Hcl; try lia.
      reflexivity. }
    exact (Backup_run_after_return w events ending more s I T).
Qed.

Lemma errFunc_stable_after_close_witness :
  let step := HealthStream.step sampleConv in
  let broken := opaque "transport is closing" in
  let s := run step (repeat HealthStream.Task 3)
               (HealthStream.start emptyWorld [sampleFrame 1] broken) in
  let more := [HealthStream.ErrFunc; HealthStream.Consume; HealthStream.ErrFunc] in
  HealthStream.results (run step more s)
  = [Some (Foreign broken); Some (Foreign broken)].
Proof.
  intros step broken s more.
  destruct errFunc_stable_after_close as [H _].
  destruct (H string string sampleConv [sampleFrame 1] broken emptyWorld
              (repeat HealthStream.Task 3) more eq_refl) as [_ R].
  exact R.
Defined.

(** * Further properties *)

(** ** What every entry point does, by cases *)

Lemma dial_live (env : Env) (ctx : Context) (tablet : TabletInfo) (w : World) :
  expired env ctx = false ->
  dial env ctx tablet w =
  (option_map Foreign (dialAnswer env (dialRequest env ctx tablet)),
   mkWorld (dialLog w ++ [dialRequest env ctx tablet])
           (issued w) (connCloses w) (reply w)).
Proof.
  unfold expired. intros G. unfold dial, dialRequest. rewrite G. run_world.
  destruct (connectTimeoutOf env ctx =? 0)%Z; simpl;
    match goal with |- context [dialAnswer env ?r] => destruct (dialAnswer env r) end;
    reflexivity.
Qed.

Lemma callUnary_live (env : Env) (ctx : Context) (tablet : TabletInfo)
    (method : string) (w : World) :
  expired env ctx = false ->
  callUnary env ctx tablet method w =
  match dialAnswer env (dialRequest env ctx tablet) with
  | Some e =>
      (Some (Foreign e),
       mkWorld (dialLog w ++ [dialRequest env ctx tablet])
               (issued w) (connCloses w) (reply w))
  | None =>
      (match unaryAnswer env with inl e => Some (Foreign e) | inr _ => None end,
       mkWorld (dialLog w ++ [dialRequest env ctx tablet])
               (issued w ++ [method]) (S (connCloses w)) (reply w))
  end.
Proof.
  intros G. unfold callUnary, bind. rewrite (dial_live env ctx tablet w G).
  destruct (dialAnswer env (dialRequest env ctx tablet)); reflexivity.
Qed.

Lemma callUnary_expired (env : Env) (ctx : Context) (tablet : TabletInfo)
    (method : string) (w : World) :
  expired env ctx = true ->
  callUnary env ctx tablet method w =
  (Some (timeoutError (errorString
     ("timeout connecting to TabletManager on " ++ Alias tablet))), w).
Proof.
  intros G. unfold callUnary, bind. now rewrite (dial_expired env ctx tablet w G).
Qed.

Lemma unaryWrappers_shape (f : Env -> Context -> TabletInfo -> M (option error)) :
  In f unaryWrappers -> exists method, f = fun env ctx tablet => callUnary env ctx tablet method.
Proof.
  unfold unaryWrappers. simpl. intros H.
  repeat (destruct H as [<-|H]; [eexists; reflexivity|]). contradiction.
Qed.

Lemma opened_one (env : Env) (req : DialReq) :
  opened env [req] = match dialAnswer env req with None => 1 | Some _ => 0 end.
Proof. unfold opened. simpl. destruct (dialAnswer env req); reflexivity. Qed.

(** ** Connections are given back *)

Ltac balance :=
  split; [reflexivity | split; [simpl; lia | unfold opened; simpl; lia]].

Lemma rpcCallTablet_releases (env : Env) (ctx : Context) (tablet : TabletInfo)
    (name : string) :
  releasesWhatItOpens env (rpcCallTablet env ctx tablet name).
Proof.
  intros w. destruct (expired env ctx) eqn:G.
  - exists []. rewrite (rpcCallTablet_expired env ctx tablet name w G). simpl.
    rewrite app_nil_r. balance.
  - exists [httpRequest env ctx tablet]. rewrite opened_one.
    unfold httpRequest.
    destruct (dialAnswer env
                (bsonrpc_DialHTTP "tcp" (Addr tablet) (connectTimeoutOf env ctx)))
      as [f|] eqn:D.
    + rewrite (rpcCallTablet_unconnected env ctx tablet name w f G D). simpl.
      balance.
    + rewrite (rpcCallTablet_connected env ctx tablet name w G D). simpl.
      balance.
Qed.

Lemma callUnary_releases (env : Env) (ctx : Context) (tablet : TabletInfo)
    (method : string) :
  releasesWhatItOpens env (callUnary env ctx tablet method).
Proof.
  intros w. destruct (expired env ctx) eqn:G.
  - exists []. rewrite (callUnary_expired env ctx tablet method w G). simpl.
    rewrite app_nil_r. balance.
  - exists [dialRequest env ctx tablet]. rewrite opened_one.
    rewrite (callUnary_live env ctx tablet method w G).
    destruct (dialAnswer env (dialRequest env ctx tablet)); simpl; balance.
Qed.

(** X1: every call that is not a stream returns with nothing left open.
    [rpcCallTablet], [Ping], the eight error-only grpc wrappers, [InitSlave]
    and [SetMaster] each make at most one dial attempt, and call [Close]
    exactly once if that attempt connected and not at all otherwise,
    whichever way the call ends. *)
Theorem unary_calls_release_what_they_open
    (env : Env) (ctx : Context) (tablet : TabletInfo) :
  (forall name, releasesWhatItOpens env (rpcCallTablet env ctx tablet name)) /\
  releasesWhatItOpens env (Ping env ctx tablet) /\
  (forall f, In f unaryWrappers -> releasesWhatItOpens env (f env ctx tablet)) /\
  (forall (TabletAlias ReplicationPosition : Type) (name : string) (now0 : Time.Time)
          (parent : TabletAlias) (pos : ReplicationPosition) (created : Z),
     releasesWhatItOpens env
       (InitSlave name now0 env ctx tablet parent pos created)) /\
  (forall (TabletAlias : Type) (name : string) (now0 : Time.Time)
          (parent : TabletAlias) (created : Z) (force : bool),
     releasesWhatItOpens env
       (SetMaster name now0 env ctx tablet parent created force)).
Proof.
  split; [|split; [|split; [|split]]].
  - intros name. apply rpcCallTablet_releases.
  - intros w. destruct (expired env ctx) eqn:G.
    + exists []. unfold Ping, bind. rewrite (dial_expired env ctx tablet w G). simpl.
      rewrite app_nil_r. balance.
    + exists [dialRequest env ctx tablet]. rewrite opened_one.
      unfold Ping, bind. rewrite (dial_live env ctx tablet w G).
      destruct (dialAnswer env (dialRequest env ctx tablet)); simpl.
      * balance.
      * run_world. destruct (unaryAnswer env) as [e|p]; simpl; balance.
  - intros f Hf. destruct (unaryWrappers_shape f Hf) as [method ->].
    apply callUnary_releases.
  - intros TabletAlias ReplicationPosition name now0 parent pos created w.
    unfold InitSlave.
    destruct (isSome (Deadline ctx) &&
              (isa_WaitTimeout (InitSlave_args now0 ctx parent pos created) <? 0)%Z).
    + exists []. simpl. rewrite app_nil_r. balance.
    + apply rpcCallTablet_releases.
  - intros TabletAlias name now0 parent created force w.
    unfold SetMaster.
    destruct (isSome (Deadline ctx) &&
              (sma_WaitTimeout (SetMaster_args now0 ctx parent created force) <? 0)%Z).
    + exists []. simpl. rewrite app_nil_r. balance.
    + apply rpcCallTablet_releases.
Qed.

Lemma unary_calls_release_what_they_open_witness :
  let env := sampleEnv 0%Z None (callDone None "done") in
  connCloses (snd (SetReadOnly env background sampleTablet emptyWorld)) = 1 /\
  List.length (dialLog (snd (SetReadOnly env background sampleTablet emptyWorld))) = 1.
Proof.
  intros env.
  destruct (unary_calls_release_what_they_open env background sampleTablet)
    as (_ & _ & H & _).
  destruct (H SetReadOnly (or_intror (or_introl eq_refl)) emptyWorld)
    as (new & L & _ & C).
  split; reflexivity.
Defined.

(** ** When [rpcCallTablet] succeeds *)

(** X2: [rpcCallTablet] returns nil exactly when the deadline test passed,
    the dial connected and the select saw the call complete without error;
    in every other case it returns an error. *)
Theorem rpcCallTablet_succeeds_iff
    (env : Env) (ctx : Context) (tablet : TabletInfo) (name : string) (w : World) :
  fst (rpcCallTablet env ctx tablet name w) = None <->
  expired env ctx = false /\
  dialAnswer env (httpRequest env ctx tablet) = None /\
  exists result, waitAnswer env = callDone None result.
Proof.
  unfold httpRequest.
  destruct (expired env ctx) eqn:G.
  { rewrite (rpcCallTablet_expired env ctx tablet name w G). cbn [fst].
    split; [discriminate | intros (H & _); discriminate]. }
  destruct (dialAnswer env
              (bsonrpc_DialHTTP "tcp" (Addr tablet) (connectTimeoutOf env ctx)))
    as [f|] eqn:D.
  { rewrite (rpcCallTablet_unconnected env ctx tablet name w f G D). cbn [fst].
    split; [discriminate | intros (_ & H & _); discriminate]. }
  rewrite (rpcCallTablet_connected env ctx tablet name w G D). cbn [fst].
  destruct (waitAnswer env) as [cause | [f|] result]; cbn [ctxErr_eqb].
  - destruct cause; cbn [ctxErr_eqb];
      (split; [discriminate | intros (_ & _ & [x H]); discriminate]).
  - split; [discriminate | intros (_ & _ & [x H]); discriminate].
  - split; [intros _; repeat split; eauto | reflexivity].
Qed.

(** ** Timeouts handed to the dialers *)

Lemma Sub_bounds (t u : Time.Time) :
  (Time.minDuration <= Time.Sub t u <= Time.maxDuration)%Z.
Proof.
  unfold Time.Sub, Time.minDuration, Time.maxDuration.
  destruct (Z.ltb_spec (t - u)%Z (- 2 ^ 63)%Z); [lia|].
  destruct (Z.ltb_spec (2 ^ 63 - 1)%Z (t - u)%Z); lia.
Qed.

Lemma Sub_within (t u : Time.Time) :
  (0 <= Time.Sub t u)%Z -> (u + Time.Sub t u <= t)%Z.
Proof.
  unfold Time.Sub, Time.minDuration, Time.maxDuration.
  destruct (Z.ltb_spec (t - u)%Z (- 2 ^ 63)%Z); [lia|].
  destruct (Z.ltb_spec (2 ^ 63 - 1)%Z (t - u)%Z); lia.
Qed.

Lemma Sub_antitone (t u u' : Time.Time) :
  (u <= u')%Z -> (Time.Sub t u' <= Time.Sub t u)%Z.
Proof.
  unfold Time.Sub, Time.minDuration, Time.maxDuration. intros H.
  destruct (Z.ltb_spec (t - u)%Z (- 2 ^ 63)%Z);
    destruct (Z.ltb_spec (2 ^ 63 - 1)%Z (t - u)%Z);
    destruct (Z.ltb_spec (t - u')%Z (- 2 ^ 63)%Z);
    destruct (Z.ltb_spec (2 ^ 63 - 1)%Z (t - u')%Z); lia.
Qed.

(** The requests made once the deadline test has passed are sane, and a
    bound they carry ends no later than the deadline. *)
Lemma live_requests_sane (env : Env) (ctx : Context) (tablet : TabletInfo) (req : DialReq) :
  expired env ctx = false ->
  req = dialRequest env ctx tablet \/ req = httpRequest env ctx tablet ->
  saneTimeout req = true /\
  (forall d, boundOf req = Some d ->
     (0 < d <= Time.maxDuration)%Z /\
     exists deadline, Deadline ctx = Some deadline /\ (now env + d <= deadline)%Z).
Proof.
  unfold expired, dialRequest, httpRequest, connectTimeoutOf. intros G H.
  destruct (Deadline ctx) as [deadline|]; simpl in G.
  - apply Z.ltb_ge in G. pose proof (Sub_bounds deadline (now env)) as B.
    pose proof (Sub_within deadline (now env) G) as W.
    destruct H as [-> | ->].
    + destruct (Z.eqb_spec (Time.Sub deadline (now env)) 0); simpl.
      * split; [reflexivity | discriminate].
      * split; [apply Z.ltb_lt; lia|]. intros d [= <-].
        split; [lia|]. now exists deadline.
    + simpl. split; [apply Z.leb_le; lia|].
      destruct (Z.eqb_spec (Time.Sub deadline (now env)) 0); [discriminate|].
      intros d [= <-]. split; [lia|]. now exists deadline.
  - destruct H as [-> | ->]; simpl; split; try reflexivity; discriminate.
Qed.

(** X3: no dialer is ever asked with a negative timeout.  Every request
    that [dial], [rpcCallTablet] or [Backup] adds to the dial log blocks,
    carries a positive timeout or none, and a timeout it carries ends no
    later than the context's deadline, as read at the call's clock reading. *)
Theorem dialers_get_sane_timeouts
    (env : Env) (ctx : Context) (tablet : TabletInfo) (w : World) :
  let sane (before after : list DialReq) :=
    exists new,
      after = (before ++ new)%list /\
      forall req, In req new ->
        saneTimeout req = true /\
        (forall d, boundOf req = Some d ->
           (0 < d <= Time.maxDuration)%Z /\
           exists deadline,
             Deadline ctx = Some deadline /\ (now env + d <= deadline)%Z) in
  sane (dialLog w) (dialLog (snd (dial env ctx tablet w))) /\
  (forall name, sane (dialLog w) (dialLog (snd (rpcCallTablet env ctx tablet name w)))) /\
  (forall (LoggerEvent : Type) (events : list LoggerEvent) ending,
     sane (dialLog w)
          (dialLog match Backup.Backup env ctx tablet events ending w with
                   | Backup.Failed _ w' => w'
                   | Backup.Streaming s => Backup.world s
                   end)).
Proof.
  intros sane. subst sane. cbv beta.
  destruct (expired env ctx) eqn:G.
  - split; [|split]; intros.
    + exists []. rewrite (dial_expired env ctx tablet w G). simpl.
      rewrite app_nil_r. split; [reflexivity | contradiction].
    + exists []. rewrite (rpcCallTablet_expired env ctx tablet name w G). simpl.
      rewrite app_nil_r. split; [reflexivity | contradiction].
    + exists []. rewrite (Backup_expired env ctx tablet LoggerEvent events ending w G).
      rewrite app_nil_r. split; [reflexivity | contradiction].
  - split; [|split]; intros.
    + exists [dialRequest env ctx tablet]. rewrite (dial_live env ctx tablet w G).
      split; [reflexivity|]. intros req [<-|[]].
      apply (live_requests_sane env ctx tablet _ G). now left.
    + exists [httpRequest env ctx tablet]. split.
      * destruct (rpcCallTablet_releases env ctx tablet name w) as (new & L & _ & _).
        unfold httpRequest.
        destruct (dialAnswer env
                    (bsonrpc_DialHTTP "tcp" (Addr tablet) (connectTimeoutOf env ctx)))
          as [f|] eqn:D.
        -- now rewrite (rpcCallTablet_unconnected env ctx tablet name w f G D).
        -- now rewrite (rpcCallTablet_connected env ctx tablet name w G D).
      * intros req [<-|[]]. apply (live_requests_sane env ctx tablet _ G). now right.
    + exists [httpRequest env ctx tablet]. split.
      * unfold Backup.Backup. unfold expired in G. rewrite G. run_world.
        unfold httpRequest.
        destruct (dialAnswer env
                    (bsonrpc_DialHTTP "tcp" (Addr tablet) (connectTimeoutOf env ctx)));
          reflexivity.
      * intros req [<-|[]]. apply (live_requests_sane env ctx tablet _ G). now right.
Qed.

Lemma rpcCallTablet_succeeds_iff_witness :
  let env := sampleEnv 0%Z None (callDone None "position") in
  fst (rpcCallTablet env background sampleTablet "MasterPosition" emptyWorld) = None.
Proof.
  intros env.
  apply (proj2 (rpcCallTablet_succeeds_iff env background sampleTablet
                  "MasterPosition" emptyWorld)).
  split; [reflexivity | split; [reflexivity | now exists "position"]].
Defined.

Lemma dialers_get_sane_timeouts_witness :
  let env := sampleEnv 100%Z None (ctxDone Canceled) in
  forallb saneTimeout
    (dialLog (snd (dial env (withDeadline 250%Z) sampleTablet emptyWorld))) = true.
Proof.
  intros env.
  destruct (dialers_get_sane_timeouts env (withDeadline 250%Z) sampleTablet emptyWorld)
    as ((new & L & S) & _).
  rewrite L. simpl. apply forallb_forall. intros req Hreq. exact (proj1 (S req Hreq)).
Defined.

(** ** What a timeout says about the call *)

(** X4: a [timeoutError] from [rpcCallTablet] tells by its message how far the
    call got.  "timeout connecting ..." means the deadline test failed: no
    dial attempt was made and nothing was sent.  "timeout waiting ..." means
    the method had been issued on a connection and the context ended by
    deadline expiry before the select saw it complete; the remote side may
    have run it. *)
Theorem rpcCallTablet_timeout_phase
    (env : Env) (ctx : Context) (tablet : TabletInfo) (name : string)
    (w : World) (e : error) :
  fst (rpcCallTablet env ctx tablet name w) = Some e ->
  IsTimeoutError (Some e) = true ->
  (Str.hasPrefix "timeout connecting" (Error e) = true /\
   Str.hasPrefix "timeout waiting" (Error e) = false /\
   expired env ctx = true /\
   snd (rpcCallTablet env ctx tablet name w) = w)
  \/
  (Str.hasPrefix "timeout waiting" (Error e) = true /\
   Str.hasPrefix "timeout connecting" (Error e) = false /\
   waitAnswer env = ctxDone DeadlineExceeded /\
   dialLog (snd (rpcCallTablet env ctx tablet name w))
   = (dialLog w ++ [httpRequest env ctx tablet])%list /\
   issued (snd (rpcCallTablet env ctx tablet name w))
   = (issued w ++ [("TabletManager." ++ name)%string])%list).
Proof.
  destruct (expired env ctx) eqn:G.
  - rewrite (rpcCallTablet_expired env ctx tablet name w G). cbn [fst snd].
    intros [= <-] _. left. repeat split.
  - unfold httpRequest.
    destruct (dialAnswer env
                (bsonrpc_DialHTTP "tcp" (Addr tablet) (connectTimeoutOf env ctx)))
      as [f|] eqn:D.
    + rewrite (rpcCallTablet_unconnected env ctx tablet name w f G D). cbn [fst].
      intros [= <-]. discriminate.
    + rewrite (rpcCallTablet_connected env ctx tablet name w G D). cbn [fst snd].
      destruct (waitAnswer env) as [[|] | [f|] result]; cbn [ctxErr_eqb];
        try discriminate; intros [= <-]; try discriminate.
      intros _. right. repeat split.
Qed.

Lemma rpcCallTablet_timeout_phase_witness :
  let env := sampleEnv 100%Z None (ctxDone DeadlineExceeded) in
  dialLog (snd (rpcCallTablet env (withDeadline 150%Z) sampleTablet "StopSlave" emptyWorld))
  = [bsonrpc_DialHTTP "tcp" "host:15999" 50%Z].
Proof.
  intros env.
  destruct (rpcCallTablet_timeout_phase env (withDeadline 150%Z) sampleTablet
              "StopSlave" emptyWorld
              (timeoutError (errorString
                 "timeout waiting for TabletManager.StopSlave to cell-0000000001"))
              eq_refl eq_refl) as [(_ & _ & G & _) | (_ & _ & _ & L & _)].
  - discriminate G.
  - exact L.
Defined.

(** ** The unary grpc wrappers *)

(** X5: [Sleep], [SetReadOnly], [SetReadWrite], [ChangeType], [Scrap],
    [RefreshState], [RunHealthCheck] and [ReloadSchema] return a
    [timeoutError] exactly when the deadline had passed before dialing.
    Otherwise they return the dialer's error or the grpc method's error as
    it is, or nil; so a deadline that expires during the grpc call itself is
    not reported as a timeout by [IsTimeoutError].  The method is issued only
    on a connection that was opened. *)
Theorem unary_wrappers_pass_errors_through
    (f : Env -> Context -> TabletInfo -> M (option error))
    (env : Env) (ctx : Context) (tablet : TabletInfo) (w : World) :
  In f unaryWrappers ->
  let r := f env ctx tablet w in
  IsTimeoutError (fst r) = expired env ctx /\
  (expired env ctx = true -> snd r = w) /\
  (expired env ctx = false ->
   fst r = match dialAnswer env (dialRequest env ctx tablet) with
           | Some e => Some (Foreign e)
           | None => match unaryAnswer env with
                     | inl e => Some (Foreign e)
                     | inr _ => None
                     end
           end /\
   List.length (issued (snd r))
   = List.length (issued w)
     + match dialAnswer env (dialRequest env ctx tablet) with
       | Some _ => 0
       | None => 1
       end).
Proof.
  intros Hf r. subst r. destruct (unaryWrappers_shape f Hf) as [method ->].
  destruct (expired env ctx) eqn:G.
  - rewrite (callUnary_expired env ctx tablet method w G).
    split; [reflexivity | split; [reflexivity | discriminate]].
  - rewrite (callUnary_live env ctx tablet method w G).
    destruct (dialAnswer env (dialRequest env ctx tablet)) as [e|]; cbn [fst snd issued].
    + split; [reflexivity | split; [discriminate|]].
      intros _. split; [reflexivity | lia].
    + split; [destruct (unaryAnswer env); reflexivity|].
      split; [discriminate|]. intros _. split; [reflexivity|].
      rewrite length_app. simpl. lia.
Qed.

Lemma unary_wrappers_pass_errors_through_witness :
  let late := opaque "rpc error: code = 4 desc = context deadline exceeded" in
  let env := mkEnv 100%Z (fun _ => None) (ctxDone Canceled) (inl late) None in
  fst (RunHealthCheck env (withDeadline 150%Z) sampleTablet emptyWorld)
  = Some (Foreign late) /\
  IsTimeoutError (fst (RunHealthCheck env (withDeadline 150%Z) sampleTablet emptyWorld))
  = false.
Proof.
  intros late env.
  destruct (unary_wrappers_pass_errors_through RunHealthCheck env (withDeadline 150%Z)
              sampleTablet emptyWorld) as (T & _ & L).
  - unfold unaryWrappers. simpl. tauto.
  - split; [exact (proj1 (L eq_refl)) | exact T].
Defined.

(** X6: once connected, [Ping] returns nil exactly when the remote echoed
    the payload "payload"; any other echo gives the error "bad ping result:
    <echo>", which is not a timeout, and the connection is closed once in
    either case. *)
Theorem Ping_checks_the_echo
    (env : Env) (ctx : Context) (tablet : TabletInfo) (w : World) (echo : Payload) :
  expired env ctx = false ->
  dialAnswer env (dialRequest env ctx tablet) = None ->
  unaryAnswer env = inr echo ->
  let r := Ping env ctx tablet w in
  (fst r = None <-> echo = "payload") /\
  (echo <> "payload" ->
   fst r = Some (errorString ("bad ping result: " ++ echo)) /\
   Str.contains echo ("bad ping result: " ++ echo) = true) /\
  IsTimeoutError (fst r) = false /\
  connCloses (snd r) = S (connCloses w) /\
  issued (snd r) = (issued w ++ ["Ping"])%list.
Proof.
  intros G D U r. subst r.
  assert (E : Ping env ctx tablet w
              = (if String.eqb echo "payload" then None
                 else Some (errorString ("bad ping result: " ++ echo)),
                 mkWorld (dialLog w ++ [dialRequest env ctx tablet])
                         (issued w ++ ["Ping"]) (S (connCloses w)) (reply w))).
  { unfold Ping, bind. rewrite (dial_live env ctx tablet w G), D. run_world.
    rewrite U. destruct (String.eqb echo "payload"); reflexivity. }
  rewrite E. cbn [fst snd connCloses issued].
  destruct (String.eqb_spec echo "payload") as [->|N].
  - split; [split; reflexivity|]. split; [intros H; contradiction|].
    split; [reflexivity | split; reflexivity].
  - split; [split; [discriminate | contradiction]|].
    split; [intros _; split; [reflexivity | find_in_message]|].
    split; [reflexivity | split; reflexivity].
Qed.

Lemma Ping_checks_the_echo_witness :
  let env := mkEnv 0%Z (fun _ => None) (ctxDone Canceled) (inr "pong") None in
  fst (Ping env background sampleTablet emptyWorld)
  = Some (errorString "bad ping result: pong").
Proof.
  intros env.
  destruct (Ping_checks_the_echo env background sampleTablet emptyWorld "pong"
              eq_refl eq_refl eq_refl) as (_ & H & _).
  apply H. discriminate.
Defined.

(** ** [InitSlave] and [SetMaster] *)

(** X7: [InitSlave] and [SetMaster] test the deadline themselves before
    [rpcCallTablet] tests it again at a later clock reading.  With a clock
    that does not run backwards: a deadline that has passed by the later
    reading makes both return a [timeoutError] without any dial attempt,
    whichever of the two tests catches it; otherwise both behave exactly as
    [rpcCallTablet] with their action name, and the [WaitTimeout] they put in
    their arguments is not negative and not shorter than the connect timeout
    (zero for both when no deadline is set). *)
Theorem reparenting_calls_guard_their_wait_timeout
    (TabletAlias ReplicationPosition : Type) (initSlave setMaster : string)
    (now0 : Time.Time) (env : Env) (ctx : Context) (tablet : TabletInfo)
    (parent : TabletAlias) (pos : ReplicationPosition) (created : Z)
    (force : bool) (w : World) :
  (now0 <= now env)%Z ->
  let r1 := InitSlave initSlave now0 env ctx tablet parent pos created w in
  let a1 := InitSlave_args now0 ctx parent pos created in
  let r2 := SetMaster setMaster now0 env ctx tablet parent created force w in
  let a2 := SetMaster_args now0 ctx parent created force in
  (expired env ctx = true ->
   IsTimeoutError (fst r1) = true /\ snd r1 = w /\
   IsTimeoutError (fst r2) = true /\ snd r2 = w) /\
  (expired env ctx = false ->
   r1 = rpcCallTablet env ctx tablet initSlave w /\
   r2 = rpcCallTablet env ctx tablet setMaster w /\
   (0 <= connectTimeoutOf env ctx <= isa_WaitTimeout a1)%Z /\
   sma_WaitTimeout a2 = isa_WaitTimeout a1) /\
  (Deadline ctx = None -> isa_WaitTimeout a1 = 0%Z /\ sma_WaitTimeout a2 = 0%Z).
Proof.
  intros Hclock r1 a1 r2 a2. subst r1 a1 r2 a2.
  unfold InitSlave, SetMaster, InitSlave_args, SetMaster_args.
  cbn [isa_WaitTimeout sma_WaitTimeout].
  split; [|split].
  - intros G.
    match goal with |- context [if ?c then _ else _] => destruct c end.
    + repeat split.
    + rewrite !(rpcCallTablet_expired env ctx tablet _ w G). repeat split.
  - intros G. unfold expired, connectTimeoutOf in *.
    destruct (Deadline ctx) as [deadline|]; simpl in *.
    + apply Z.ltb_ge in G.
      pose proof (Sub_antitone deadline now0 (now env) Hclock) as A.
      destruct (Z.ltb_spec (Time.Sub deadline now0) 0); [lia|].
      repeat split; lia.
    + repeat split; lia.
  - intros ->. split; reflexivity.
Qed.

Lemma reparenting_calls_guard_their_wait_timeout_witness :
  let env := sampleEnv 120%Z None (callDone None "") in
  IsTimeoutError
    (fst (InitSlave "InitSlave" 100%Z env (withDeadline 110%Z) sampleTablet
            "cell-0000000002" "MariaDB/0-1-5" 0%Z emptyWorld)) = true /\
  snd (InitSlave "InitSlave" 100%Z env (withDeadline 110%Z) sampleTablet
         "cell-0000000002" "MariaDB/0-1-5" 0%Z emptyWorld) = emptyWorld.
Proof.
  intros env.
  assert (C : (100 <= now env)%Z) by (simpl; lia).
  destruct (reparenting_calls_guard_their_wait_timeout string string
              "InitSlave" "SetMaster" 100%Z env (withDeadline 110%Z) sampleTablet
              "cell-0000000002" "MariaDB/0-1-5" 0%Z false emptyWorld C)
    as (H & _).
  destruct (H eq_refl) as (T & W & _). split; [exact T | exact W].
Defined.

(** ** [HealthStream]: receive errors and buffering *)

Section HealthStreamMore.

Context {PbTablet Tablet : Type}.
Variable ProtoToTablet : PbTablet -> Tablet.

Local Abbreviation hstep := (HealthStream.step ProtoToTablet).
Local Abbreviation hrun := (run (HealthStream.step ProtoToTablet)).

(** The channel never holds more than its ten slots. *)
Lemma HealthStream_buffer_bounded (w : World)
    (frames : list (HealthStream.StreamHealthResponse PbTablet)) (ending : foreign)
    (sched : list HealthStream.action) :
  List.length (Chan.buf (HealthStream.logstream
                           (hrun sched (HealthStream.start w frames ending)))) <= 10.
Proof.
  apply (run_invariant hstep
           (fun s => Chan.cap (HealthStream.logstream s) = 10 /\
                     List.length (Chan.buf (HealthStream.logstream s)) <= 10)).
  - intros a s s' [C B] H. destruct s as [w1 sv se t ls fe cs sc rs]; simpl in *.
    destruct a; simpl in H.
    + destruct t as [|r| |]; [destruct sv | | | discriminate].
      * injection H as <-. simpl. auto.
      * injection H as <-. simpl. auto.
      * unfold Chan.send in H.
        destruct (Nat.ltb_spec (List.length (Chan.buf ls)) (Chan.cap ls));
          [|discriminate].
        injection H as <-. simpl. rewrite length_app. simpl. lia.
      * injection H as <-. simpl. auto.
    + destruct sc; [discriminate|]. unfold Chan.recv in H.
      destruct (Chan.buf ls) as [|r rest] eqn:E.
      * destruct (0 <? Chan.closes ls)%nat; [|discriminate].
        injection H as <-. simpl. rewrite E. simpl. lia.
      * injection H as <-. simpl in *. lia.
    + injection H as <-. simpl. auto.
    + destruct t as [|r| |]; try discriminate. destruct sv; [|discriminate].
      injection H as <-. simpl. auto.
  - simpl. lia.
Qed.

End HealthStreamMore.

(** X8: when [stream.Recv()] fails with an error other than [io.EOF] after
    the frames [F1..Fn], the caller still reads exactly [F1..Fn] in order
    (each with its tablet converted by [topo.ProtoToTablet] and its other
    three fields as received) before it sees the channel closed, the channel is closed once, and the
    ErrFunc then returns that very error; every scheduler that keeps running
    whichever of goroutine and caller can move gets there. *)
Theorem HealthStream_receive_error_surfaces
    (PbTablet Tablet : Type) (ProtoToTablet : PbTablet -> Tablet)
    (frames : list (HealthStream.StreamHealthResponse PbTablet))
    (msg : string) (w : World) :
  let step := HealthStream.step ProtoToTablet in
  let init := HealthStream.start w frames (opaque msg) in
  let expected :=
    map (fun shr =>
           HealthStream.mkReply
             (ProtoToTablet (HealthStream.shr_Tablet shr))
             (HealthStream.shr_BinlogPlayerMapSize shr)
             (HealthStream.shr_HealthError shr)
             (HealthStream.shr_ReplicationDelay shr)) frames in
  (forall sched,
     HealthStream.sawClose (run step sched init) = true ->
     HealthStream.consumed (run step sched init) = expected /\
     Chan.closes (HealthStream.logstream (run step sched init)) = 1 /\
     fst (HealthStream.errFunc (run step sched init)) = Some (Foreign (opaque msg))) /\
  (forall pref,
     let s := run step (drive step HealthStream.progress pref
                          (HealthStream.measure init) 0 init) init in
     HealthStream.sawClose s = true /\
     HealthStream.consumed s = expected /\
     fst (HealthStream.errFunc s) = Some (Foreign (opaque msg))).
Proof.
  intros step init expected.
  pose proof (HealthStream_start_inv ProtoToTablet w frames (opaque msg)) as I0.
  fold init in I0.
  assert (Safe : forall s,
            HealthStream.Invariant ProtoToTablet w frames (opaque msg) s ->
            HealthStream.sawClose s = true ->
            HealthStream.consumed s = expected /\
            Chan.closes (HealthStream.logstream s) = 1 /\
            fst (HealthStream.errFunc s) = Some (Foreign (opaque msg))).
  { intros s I E.
    destruct (HealthStream_drained ProtoToTablet w frames (opaque msg) s I E)
      as (C & L & F).
    split; [exact C | split; [exact L | exact F]]. }
  split.
  - intros sched E. apply Safe; [apply HealthStream_run_inv, I0 | exact E].
  - intros pref s.
    assert (I : HealthStream.Invariant ProtoToTablet w frames (opaque msg) s)
      by (apply HealthStream_run_inv, I0).
    assert (E : HealthStream.sawClose s = true).
    { apply (HealthStream_quiescent ProtoToTablet w frames (opaque msg) s I).
      intros a Ha.
      apply (drive_quiescent step HealthStream.progress HealthStream.measure
               (HealthStream_size_decreases ProtoToTablet));
        [apply Nat.le_refl | exact Ha]. }
    destruct (Safe s I E) as (C & _ & F). split; [exact E | split; [exact C | exact F]].
Qed.

Lemma HealthStream_receive_error_surfaces_witness :
  let step := HealthStream.step sampleTopo in
  let frames := [healthFrame 1 "" 0; healthFrame 2 "replication lag" 1500] in
  let sched := (repeat HealthStream.Task 5 ++ repeat HealthStream.Consume 3)%list in
  let s := run step sched (HealthStream.start emptyWorld frames (opaque "reset by peer")) in
  HealthStream.consumed s
  = [HealthStream.mkReply "topo:cell-0000000001" 1 "" 0%Z;
     HealthStream.mkReply "topo:cell-0000000001" 2 "replication lag" 1500%Z] /\
  fst (HealthStream.errFunc s) = Some (Foreign (opaque "reset by peer")).
Proof.
  intros step frames sched s.
  destruct (HealthStream_receive_error_surfaces string string sampleTopo frames
              "reset by peer" emptyWorld) as [Safe _].
  destruct (Safe sched eq_refl) as (C & _ & F). split; [exact C | exact F].
Defined.

(** X9: the [HealthStream] goroutine runs at most ten frames ahead of the
    caller, plus the one it holds.  The channel never holds more than ten
    replies; the frames taken from the stream exceed those the caller has
    read by at most eleven; and the channel is not closed before the caller
    has read all but at most ten of the frames. *)
Theorem HealthStream_runs_at_most_ten_ahead
    (PbTablet Tablet : Type) (ProtoToTablet : PbTablet -> Tablet)
    (frames : list (HealthStream.StreamHealthResponse PbTablet))
    (ending : foreign) (w : World) (sched : list HealthStream.action) :
  let s := run (HealthStream.step ProtoToTablet) sched
               (HealthStream.start w frames ending) in
  List.length (Chan.buf (HealthStream.logstream s)) <= 10 /\
  List.length frames
  <= List.length (HealthStream.server s) + List.length (HealthStream.consumed s) + 11 /\
  (Chan.closed (HealthStream.logstream s) = true ->
   List.length frames <= List.length (HealthStream.consumed s) + 10).
Proof.
  intros s.
  pose proof (HealthStream_buffer_bounded ProtoToTablet w frames ending sched) as B.
  fold s in B.
  pose proof (HealthStream_run_inv ProtoToTablet w frames ending sched _
                (HealthStream_start_inv ProtoToTablet w frames ending)) as I.
  fold s in I. destruct I as [Ho _ Hcl Hd _ _ _ _].
  apply (f_equal (@List.length _)) in Ho.
  rewrite !length_app, !length_map in Ho.
  split; [exact B|]. split.
  - destruct (HealthStream.task s); simpl in Ho; lia.
  - unfold Chan.closed. intros C. apply Nat.ltb_lt in C.
    destruct (HealthStream.task s); simpl in Hcl; try lia.
    rewrite (Hd eq_refl) in Ho. simpl in Ho. lia.
Qed.

Lemma HealthStream_runs_at_most_ten_ahead_witness :
  let frames := map sampleFrame [1; 2; 3; 4; 5; 6; 7; 8; 9; 10; 11; 12]%Z in
  let s := run (HealthStream.step sampleConv) (repeat HealthStream.Task 40)
               (HealthStream.start emptyWorld frames io_EOF) in
  Chan.closed (HealthStream.logstream s) = false /\
  List.length (HealthStream.server s) = 1.
Proof.
  intros frames s.
  pose proof (HealthStream_runs_at_most_ten_ahead string string sampleConv frames
                io_EOF emptyWorld (repeat HealthStream.Task 40)) as (_ & _ & H).
  split; [|vm_compute; reflexivity].
  destruct (Chan.closed (HealthStream.logstream s)) eqn:C; [|reflexivity].
  specialize (H C). vm_compute in H. lia.
Defined.

(** ** [Backup]: stream errors, what is published, blocked sends *)

Section BackupMore.

Context {LoggerEvent : Type}.

Local Abbreviation bstep := (@Backup.step LoggerEvent).
Local Abbreviation brun := (run (@Backup.step LoggerEvent)).

(** After the goroutine has returned, a step moves events from the channel
    to the caller at most. *)
Lemma Backup_attempt_keeps_published (a : Backup.action) (s : Backup.State LoggerEvent) :
  Backup.task s = Backup.Returned ->
  Backup.task (attempt bstep a s) = Backup.Returned /\
  (Backup.consumed (attempt bstep a s)
     ++ Chan.buf (Backup.logstream (attempt bstep a s)))%list
  = (Backup.consumed s ++ Chan.buf (Backup.logstream s))%list.
Proof.
  intros T. destruct s as [w cx pd re rs ce t ls it cs sc res]; simpl in *. subst t.
  unfold attempt. destruct a; simpl; auto.
  - destruct cx; simpl; auto.
  - destruct (Chan.closed rs); simpl; auto.
    destruct pd; [|destruct (Chan.send l rs)]; simpl; auto.
  - destruct sc; simpl; auto. unfold Chan.recv.
    destruct (Chan.buf ls) as [|r rest] eqn:B.
    + destruct (0 <? Chan.closes ls)%nat; simpl; rewrite ?B; auto.
    + simpl. rewrite <- app_assoc. auto.
Qed.

Lemma Backup_run_keeps_published (more : list Backup.action) (s : Backup.State LoggerEvent) :
  Backup.task s = Backup.Returned ->
  (Backup.consumed (brun more s) ++ Chan.buf (Backup.logstream (brun more s)))%list
  = (Backup.consumed s ++ Chan.buf (Backup.logstream s))%list.
Proof.
  revert s. induction more as [|a rest IH]; intros s T; cbn [run]; [reflexivity|].
  destruct (Backup_attempt_keeps_published a s T) as [T' E].
  rewrite (IH _ T'). exact E.
Qed.

(** Neither channel ever holds more than its ten slots. *)
Lemma Backup_buffers_bounded (w : World) (events : list LoggerEvent)
    (ending : option foreign) (sched : list Backup.action) :
  let s := brun sched (Backup.start w events ending) in
  List.length (Chan.buf (Backup.logstream s)) <= 10 /\
  List.length (Chan.buf (Backup.rpcstream s)) <= 10.
Proof.
  apply (run_invariant bstep
           (fun s => (Chan.cap (Backup.logstream s) = 10 /\
                      Chan.cap (Backup.rpcstream s) = 10) /\
                     List.length (Chan.buf (Backup.logstream s)) <= 10 /\
                     List.length (Chan.buf (Backup.rpcstream s)) <= 10)).
  - intros a s s' [[C1 C2] [B1 B2]] H.
    destruct s as [w1 cx pd re rs ce t ls it cs sc res]; simpl in *.
    destruct a; simpl in H.
    + destruct cx; [discriminate|]. injection H as <-. simpl. auto.
    + destruct (Chan.closed rs); [discriminate|].
      destruct pd as [|ev rest].
      * injection H as <-. simpl. auto.
      * unfold Chan.send in H.
        destruct (Nat.ltb_spec (List.length (Chan.buf rs)) (Chan.cap rs));
          [|discriminate].
        injection H as <-. simpl. rewrite length_app. simpl.
        repeat split; auto; lia.
    + destruct t; try discriminate. destruct cx; [|discriminate].
      injection H as <-. simpl. auto.
    + destruct t; try discriminate. unfold Chan.recv in H.
      destruct (Chan.buf rs) as [|ssr rest] eqn:E.
      * destruct (0 <? Chan.closes rs)%nat; [|discriminate].
        injection H as <-. simpl. rewrite E. simpl. repeat split; auto; lia.
      * injection H as <-. simpl in *. repeat split; auto; lia.
    + destruct t as [|ssr|]; try discriminate. unfold Chan.send in H.
      destruct (Nat.ltb_spec (List.length (Chan.buf ls)) (Chan.cap ls));
        [|discriminate].
      injection H as <-. simpl. rewrite length_app. simpl. repeat split; auto; lia.
    + destruct sc; [discriminate|]. unfold Chan.recv in H.
      destruct (Chan.buf ls) as [|r rest] eqn:E.
      * destruct (0 <? Chan.closes ls)%nat; [|discriminate].
        injection H as <-. simpl. rewrite E. simpl. repeat split; auto; lia.
      * injection H as <-. simpl in *. repeat split; auto; lia.
    + injection H as <-. simpl. auto.
  - simpl. repeat split; lia.
Qed.

(** A goroutine whose send is blocked stays where it is until the caller
    receives: no other action moves it. *)
Lemma Backup_attempt_blocked (a : Backup.action) (s : Backup.State LoggerEvent)
    (ssr : LoggerEvent) :
  Backup.task s = Backup.Sending ssr ->
  Chan.send ssr (Backup.logstream s) = None ->
  a <> Backup.Consume ->
  Backup.task (attempt bstep a s) = Backup.Sending ssr /\
  Backup.logstream (attempt bstep a s) = Backup.logstream s /\
  Backup.interrupted (attempt bstep a s) = Backup.interrupted s /\
  connCloses (Backup.world (attempt bstep a s)) = connCloses (Backup.world s).
Proof.
  intros T B N. destruct s as [w cx pd re rs ce t ls it cs sc res]; simpl in *.
  subst t. unfold attempt. destruct a; simpl; auto.
  - destruct cx; simpl; auto.
  - destruct (Chan.closed rs); simpl; auto.
    destruct pd; [|destruct (Chan.send l rs)]; simpl; auto.
  - rewrite B. simpl. auto.
  - now contradiction N.
Qed.

End BackupMore.

(** X11: when the remote [Backup] stream ends with an error and the context
    is never done, the caller reads every event in order before it sees the
    channel closed, and the ErrFunc then returns [c.Error] as it is; every
    scheduler that keeps running whichever of rpcplus, goroutine and caller
    can move gets there. *)
Theorem Backup_stream_error_surfaces
    (LoggerEvent : Type) (events : list LoggerEvent) (f : foreign) (w : World) :
  let init := Backup.start w events (Some f) in
  (forall sched,
     Backup.sawClose (run Backup.step sched init) = true ->
     Backup.ctxErr_ (run Backup.step sched init) = None ->
     Backup.consumed (run Backup.step sched init) = events /\
     fst (Backup.errFunc (run Backup.step sched init)) = Some (Foreign f)) /\
  (forall pref,
     let s := run Backup.step (drive Backup.step Backup.progress pref
                                 (Backup.measure init) 0 init) init in
     Backup.sawClose s = true /\
     Backup.consumed s = events /\
     fst (Backup.errFunc s) = Some (Foreign f)).
Proof.
  intros init.
  pose proof (Backup_start_inv w events (Some f)) as I0. fold init in I0.
  assert (Safe : forall s,
            Backup.Invariant w events (Some f) s ->
            Backup.sawClose s = true ->
            Backup.ctxErr_ s = None ->
            Backup.consumed s = events /\
            fst (Backup.errFunc s) = Some (Foreign f)).
  { intros s I E C.
    assert (N : Backup.interrupted s = false).
    { destruct (Backup.interrupted s) eqn:X; [|reflexivity].
      pose proof I as [_ _ _ _ _ Hi _ _ _ _].
      destruct (Hi X) as [_ Y]. contradiction. }
    destruct (Backup_drained w events (Some f) s I E N) as (A & _ & B).
    split; [exact A | exact B]. }
  split.
  - intros sched E C. apply Safe; [apply Backup_run_inv, I0 | exact E | exact C].
  - intros pref s.
    assert (I : Backup.Invariant w events (Some f) s) by (apply Backup_run_inv, I0).
    assert (C : Backup.ctxErr_ s = None).
    { apply (drive_preserves Backup.step Backup.progress
               (fun st => Backup.ctxErr_ st = None)); [|reflexivity].
      intros a s1 s2 Ha P H. exact (Backup_progress_keeps_ctx a s1 s2 Ha P H). }
    assert (E : Backup.sawClose s = true).
    { apply (Backup_quiescent w events (Some f) s I). intros a Ha.
      apply (drive_quiescent Backup.step Backup.progress Backup.measure
               Backup_size_decreases); [apply Nat.le_refl | exact Ha]. }
    split; [exact E | apply Safe; assumption].
Qed.

Lemma Backup_stream_error_surfaces_witness :
  let sched :=
    [Backup.Deliver; Backup.Deliver; Backup.TaskRecv; Backup.TaskSend;
     Backup.TaskRecv; Backup.Consume; Backup.Consume] in
  let s := run Backup.step sched
               (Backup.start emptyWorld ["line 1"] (Some (opaque "tar failed"))) in
  Backup.consumed s = ["line 1"] /\
  fst (Backup.errFunc s) = Some (Foreign (opaque "tar failed")).
Proof.
  intros sched s.
  destruct (Backup_stream_error_surfaces string ["line 1"] (opaque "tar failed")
              emptyWorld) as [Safe _].
  exact (Safe sched eq_refl eq_refl).
Defined.

(** X12: what the caller of [Backup] gets is always an initial part of the
    events, in order; and once the goroutine has returned nothing more is
    published: the caller can still read what the channel held at that
    moment, and when it sees the channel closed it has read exactly that.
    Events that had not reached the channel are dropped. *)
Theorem Backup_publishes_nothing_after_return
    (LoggerEvent : Type) (events : list LoggerEvent) (ending : option foreign)
    (w : World) (sched more : list Backup.action) :
  let s := run Backup.step sched (Backup.start w events ending) in
  let s' := run Backup.step more s in
  (exists dropped,
     events = (Backup.consumed s ++ Chan.buf (Backup.logstream s) ++ dropped)%list) /\
  (Backup.task s = Backup.Returned ->
   (Backup.consumed s' ++ Chan.buf (Backup.logstream s'))%list
   = (Backup.consumed s ++ Chan.buf (Backup.logstream s))%list /\
   (Backup.sawClose s' = true ->
    Backup.consumed s'
    = (Backup.consumed s ++ Chan.buf (Backup.logstream s))%list)).
Proof.
  intros s s'.
  assert (I : Backup.Invariant w events ending s)
    by (apply Backup_run_inv, Backup_start_inv).
  split.
  - destruct I as [Ho _ _ _ _ _ _ _ _ _]. eexists. symmetry. exact Ho.
  - intros T. pose proof (Backup_run_keeps_published more s T) as K. fold s' in K.
    split; [exact K|]. intros E.
    assert (I' : Backup.Invariant w events ending s') by (apply Backup_run_inv, I).
    destruct I' as [_ _ _ _ _ _ _ _ _ Hs]. destruct (Hs E) as [_ B].
    rewrite B, app_nil_r in K. exact K.
Qed.

Lemma Backup_publishes_nothing_after_return_witness :
  let sched :=
    [Backup.Deliver; Backup.Deliver; Backup.Deliver; Backup.TaskRecv;
     Backup.TaskSend; Backup.Cancel Canceled; Backup.TaskDone] in
  let more := [Backup.Deliver; Backup.TaskRecv; Backup.Consume; Backup.Consume] in
  let s' := run Backup.step (sched ++ more)%list
                (Backup.start emptyWorld ["line 1"; "line 2"; "line 3"] None) in
  Backup.sawClose s' = true /\ Backup.consumed s' = ["line 1"].
Proof.
  intros sched more s'.
  destruct (Backup_publishes_nothing_after_return string
              ["line 1"; "line 2"; "line 3"] None emptyWorld sched more)
    as [_ H].
  destruct (H eq_refl) as [_ D]. split; [reflexivity | exact (D eq_refl)].
Defined.

(** X13: the [Backup] goroutine looks at [ctx.Done()] only in its select.
    While it is blocked sending to a full output channel, no cancellation,
    delivery or ErrFunc call moves it: until the caller receives, it stays
    in the send, [interrupted] stays as it is, the channel is not closed and
    the connection is not released. *)
Theorem Backup_blocked_send_ignores_cancellation
    (LoggerEvent : Type) (s : Backup.State LoggerEvent) (ssr : LoggerEvent)
    (more : list Backup.action) :
  Backup.task s = Backup.Sending ssr ->
  Chan.send ssr (Backup.logstream s) = None ->
  Forall (fun a => a <> Backup.Consume) more ->
  let s' := run Backup.step more s in
  Backup.task s' = Backup.Sending ssr /\
  Backup.logstream s' = Backup.logstream s /\
  Backup.interrupted s' = Backup.interrupted s /\
  connCloses (Backup.world s') = connCloses (Backup.world s).
Proof.
  intros T B F. revert s T B.
  induction F as [|a rest Na _ IH]; intros s T B; cbn [run].
  - repeat split; auto.
  - destruct (Backup_attempt_blocked a s ssr T B Na) as (T' & L' & I' & C').
    assert (B' : Chan.send ssr (Backup.logstream (attempt Backup.step a s)) = None)
      by (now rewrite L').
    destruct (IH _ T' B') as (T2 & L2 & I2 & C2).
    rewrite T2, L2, I2, C2, L', I', C'. repeat split.
Qed.

Lemma Backup_blocked_send_ignores_cancellation_witness :
  let events := ["A"; "B"; "C"; "D"; "E"; "F"; "G"; "H"; "I"; "J"; "K"] in
  let fill := List.concat (repeat [Backup.Deliver; Backup.TaskRecv; Backup.TaskSend] 10) in
  let s := run Backup.step (fill ++ [Backup.Deliver; Backup.TaskRecv])%list
               (Backup.start emptyWorld events None) in
  let s' := run Backup.step
                [Backup.Cancel Canceled; Backup.TaskDone; Backup.TaskSend; Backup.ErrFunc] s in
  Backup.task s' = Backup.Sending "K" /\
  Chan.closes (Backup.logstream s') = 0 /\
  connCloses (Backup.world s') = 0.
Proof.
  intros events fill s s'.
  assert (F : Forall (fun a => a <> Backup.Consume)
                [Backup.Cancel Canceled; Backup.TaskDone; Backup.TaskSend; Backup.ErrFunc])
    by (repeat constructor; discriminate).
  destruct (Backup_blocked_send_ignores_cancellation string s "K" _
              ltac:(vm_compute; reflexivity) ltac:(vm_compute; reflexivity) F)
    as (T & L & _ & C).
  fold s' in T, L, C. split; [exact T|]. split.
  - rewrite L. vm_compute. reflexivity.
  - rewrite C. vm_compute. reflexivity.
Defined.

(** X14: both channels of [Backup] hold at most ten events, so at most
    twenty-one events are between rpcplus and the caller; and when the
    output channel is closed without interruption the caller has read all
    but at most ten of the events. *)
Theorem Backup_buffers_at_most_twenty_one
    (LoggerEvent : Type) (events : list LoggerEvent) (ending : option foreign)
    (w : World) (sched : list Backup.action) :
  let s := run Backup.step sched (Backup.start w events ending) in
  List.length (Chan.buf (Backup.logstream s)) <= 10 /\
  List.length (Chan.buf (Backup.rpcstream s)) <= 10 /\
  List.length events
  <= List.length (Backup.pending s) + List.length (Backup.consumed s) + 21 /\
  (Chan.closed (Backup.logstream s) = true -> Backup.interrupted s = false ->
   List.length events <= List.length (Backup.consumed s) + 10).
Proof.
  intros s.
  destruct (Backup_buffers_bounded w events ending sched) as [B1 B2].
  fold s in B1, B2.
  assert (I : Backup.Invariant w events ending s)
    by (apply Backup_run_inv, Backup_start_inv).
  destruct I as [Ho _ _ Hcl _ _ He Hr _ _].
  apply (f_equal (@List.length _)) in Ho. rewrite !length_app in Ho.
  split; [exact B1|]. split; [exact B2|]. split.
  - destruct (Backup.task s); simpl in Ho; lia.
  - unfold Chan.closed at 1. intros C N. apply Nat.ltb_lt in C.
    destruct (Backup.task s) eqn:T; simpl in Hcl; try lia.
    destruct (He eq_refl N) as [CR BR]. destruct (Hr CR) as [P _].
    rewrite BR, P in Ho. simpl in Ho. lia.
Qed.

Lemma Backup_buffers_at_most_twenty_one_witness :
  let sched := [Backup.Deliver; Backup.TaskRecv; Backup.TaskSend; Backup.Deliver;
                Backup.TaskRecv] in
  let s := run Backup.step sched (Backup.start emptyWorld ["line 1"] None) in
  Chan.closed (Backup.logstream s) = true /\
  1 <= List.length (Backup.consumed s) + 10.
Proof.
  intros sched s.
  destruct (Backup_buffers_at_most_twenty_one string ["line 1"] None emptyWorld sched)
    as (_ & _ & _ & H).
  split; [reflexivity | exact (H eq_refl eq_refl)].
Defined.

(** ** Opening a stream *)

(** X15: [HealthStream] and [Backup] hand a stream back only after the
    deadline test passed, their one dial attempt connected and, for
    [HealthStream], the stream opened; the stream then owns a connection on
    which the method was issued and [Close] has not been called, and its
    goroutine starts with empty channels of capacity ten.  When they return
    an error instead, at most one dial attempt was made and every connection
    opened has been closed. *)
Theorem streams_own_their_connection
    (env : Env) (ctx : Context) (tablet : TabletInfo) (w : World) :
  (forall (PbTablet Tablet : Type)
          (frames : list (HealthStream.StreamHealthResponse PbTablet)) ending,
     match @HealthStream.HealthStream PbTablet Tablet env ctx tablet frames ending w with
     | HealthStream.Failed _ w' =>
         exists new,
           dialLog w' = (dialLog w ++ new)%list /\
           List.length new <= 1 /\
           connCloses w' = connCloses w + opened env new
     | HealthStream.Streaming s =>
         expired env ctx = false /\
         dialAnswer env (dialRequest env ctx tablet) = None /\
         streamAnswer env = None /\
         s = HealthStream.start
               (mkWorld (dialLog w ++ [dialRequest env ctx tablet])
                        (issued w ++ ["StreamHealth"]) (connCloses w) (reply w))
               frames ending
     end) /\
  (forall (LoggerEvent : Type) (events : list LoggerEvent) ending,
     match Backup.Backup env ctx tablet events ending w with
     | Backup.Failed _ w' =>
         exists new,
           dialLog w' = (dialLog w ++ new)%list /\
           List.length new <= 1 /\
           connCloses w' = connCloses w + opened env new
     | Backup.Streaming s =>
         expired env ctx = false /\
         dialAnswer env (httpRequest env ctx tablet) = None /\
         s = Backup.start
               (mkWorld (dialLog w ++ [httpRequest env ctx tablet])
                        (issued w ++ ["TabletManager.Backup"]) (connCloses w) (reply w))
               events ending
     end).
Proof.
  split.
  - intros PbTablet Tablet frames ending. unfold HealthStream.HealthStream.
    destruct (expired env ctx) eqn:G.
    + rewrite (dial_expired env ctx tablet w G). exists []. rewrite app_nil_r.
      balance.
    + rewrite (dial_live env ctx tablet w G).
      destruct (dialAnswer env (dialRequest env ctx tablet)) as [e|] eqn:D; simpl.
      * exists [dialRequest env ctx tablet]. rewrite opened_one, D. balance.
      * destruct (streamAnswer env) as [e|] eqn:A.
        -- exists [dialRequest env ctx tablet]. rewrite opened_one, D. simpl. balance.
        -- repeat split.
  - intros LoggerEvent events ending. unfold Backup.Backup, httpRequest.
    destruct (expired env ctx) eqn:G; unfold expired in G; rewrite G.
    + exists []. rewrite app_nil_r. balance.
    + run_world.
      destruct (dialAnswer env
                  (bsonrpc_DialHTTP "tcp" (Addr tablet) (connectTimeoutOf env ctx)))
        as [e|] eqn:D.
      * exists [bsonrpc_DialHTTP "tcp" (Addr tablet) (connectTimeoutOf env ctx)].
        rewrite opened_one, D. balance.
      * repeat split.
Qed.

Lemma streams_own_their_connection_witness :
  let env := sampleEnv 0%Z None (ctxDone Canceled) in
  exists s,
    Backup.Backup env background sampleTablet ["line 1"] None emptyWorld
    = Backup.Streaming s /\
    connCloses (Backup.world s) = 0 /\
    issued (Backup.world s) = ["TabletManager.Backup"].
Proof.
  intros env.
  destruct (streams_own_their_connection env background sampleTablet emptyWorld)
    as [_ H].
  specialize (H string ["line 1"] None).
  destruct (Backup.Backup env background sampleTablet ["line 1"] None emptyWorld)
    as [e w'|s] eqn:E.
  - discriminate E.
  - exists s. destruct H as (_ & _ & ->). repeat split.
Defined.
